(** * The Cisco Umbrella API client: request, retry and pagination engine

    A shallow embedding of [src/client.ts] (class [APIClient]) and the
    properties of its token lifecycle, retrying request routine and
    pagination iterators.

    The client is stateful code talking to an HTTP provider.  It is modelled
    as state-passing functions over
    - a heap of JavaScript header objects (the client's [headers] object is
      shared by reference with every request it builds), and
    - a trace of the effects performed so far (HTTP requests with their
      outcome, log lines, sleeps, iteratee calls).
    The HTTP primitive ([request] of gaxios) and Node's base64 encoder are
    parameters of the development, and so is the rendering of a number that
    comes from the provider.  The arithmetic on the retry-after header is
    JavaScript's: the sleep time is kept as the expression the code
    evaluates. *)

From Stdlib Require Import DecimalString ZArith.
From stdpp Require Import gmap strings list.

Open Scope string_scope.

Module Umbrella.

(** ** Data *)

(** Locations of JavaScript objects on the heap. *)
Abbreviation loc := nat (only parsing).

(** A headers object: string keys, string values. *)
Abbreviation HeadersObject := (gmap string string) (only parsing).

Record IntegrationConfig := {
  clientId : string;
  clientSecret : string;
}.

(** The body the token exchange posts. *)
Record TokenRequestBody := {
  token_type : string;
  expires_in : Z;
}.

(** [headers] of a [GaxiosOptions]: a reference to an object that lives on
    the heap (and may be mutated between two uses), or an object literal
    written in place, which nothing else can reach. *)
Inductive HeadersArg :=
| SharedObject (l : loc)
| ObjectLiteral (h : HeadersObject).

Record GaxiosOptions := {
  opt_url : string;
  opt_method : string;
  opt_headers : HeadersArg;
  opt_data : option TokenRequestBody;
}.

(** What goes on the wire: the options with the headers read at call time. *)
Record HttpRequest := {
  req_url : string;
  req_method : string;
  req_headers : HeadersObject;
  req_data : option TokenRequestBody;
}.

(** The values thrown out of the client. *)
Inductive IntegrationErr :=
| IntegrationProviderAuthenticationError
    (status : option Z) (statusText endpoint : option string)
| IntegrationProviderAuthorizationError
    (status : option Z) (statusText endpoint : option string)
| IntegrationProviderAPIError
    (status : option Z) (statusText endpoint : option string)
| IntegrationError (message code : string).

(** The time slept on a 429, as the catch block computes it: the constant
    of the class, or the product [header * 1000] of the retry-after header,
    a string, by 1000.  The product is JavaScript's ([ToNumber] of the
    string, multiplied in double precision); it is kept as the expression
    the code evaluates, [milliseconds] below gives its value where that is
    an exact integer. *)
Inductive SleepTime :=
| FixedMs (ms : Z)
| HeaderSeconds (header : string).

(** Lines written to the logger. *)
Inductive LogEntry :=
| LogRateLimit (sleepTime : SleepTime)
| LogAuthRefresh
| LogFetchError (status : option Z) (statusText endpoint : option string).

(** What running a piece of the client gives: a value, a thrown value, or
    nothing yet because the rounds granted to a loop are used up. *)
Inductive Result (E A : Type) :=
| Ret (a : A)
| Throw (e : E)
| OutOfFuel.
Arguments Ret {E A} a.
Arguments Throw {E A} e.
Arguments OutOfFuel {E A}.

Section Items.

(** The resource record type, opaque to the client. *)
Context {T : Type}.

(** The parsed body of a response: [SessionTokenResponse], a flat array
    [[T]], an [UmbrellaMetaResponse<T>] (records under [data]), or any other
    JSON value, which has none of the fields the client reads. *)
Inductive Body :=
| BToken (access_token : string)
| BArray (items : list T)
| BMeta (data : option (list T))
| BOther.

Record GaxiosResponse := {
  res_status : Z;
  res_statusText : string;
  res_headers : HeadersObject;
  res_data : Body;
  res_config_url : string;
}.

(** What [request] rejects with: a [GaxiosError] (an HTTP failure carries the
    response), or any other error object (transport failures), which has no
    [response] property. *)
Inductive JsError :=
| GaxiosError (message : string) (response : option GaxiosResponse)
| OtherError (name message : string).

Inductive Outcome :=
| Resolved (r : GaxiosResponse)
| Rejected (e : JsError).

Inductive Event :=
| EvRequest (req : HttpRequest) (out : Outcome)
| EvLog (entry : LogEntry)
| EvSleep (ms : SleepTime)
| EvCallback (item : T).

Record State := {
  heap : gmap loc HeadersObject;
  trace : list Event;
}.

(** ** The state, exception and fuel monad *)

Definition M (E A : Type) : Type := State -> State * Result E A.

Definition ret {E A} (a : A) : M E A := fun st => (st, Ret a).

Definition throw {E A} (e : E) : M E A := fun st => (st, Throw e).

Definition out_of_fuel {E A} : M E A := fun st => (st, OutOfFuel).

Definition bind {E A B} (m : M E A) (k : A -> M E B) : M E B :=
  fun st =>
    match m st with
    | (st1, Ret a) => k a st1
    | (st1, Throw e) => (st1, Throw e)
    | (st1, OutOfFuel) => (st1, OutOfFuel)
    end.

(** [try { body } catch (err) { handler err }] *)
Definition try_catch {E E' A} (body : M E A) (handler : E -> M E' A)
  : M E' A :=
  fun st =>
    match body st with
    | (st1, Ret a) => (st1, Ret a)
    | (st1, Throw e) => handler e st1
    | (st1, OutOfFuel) => (st1, OutOfFuel)
    end.

(** The state once [ev] has happened. *)
Definition record (ev : Event) (st : State) : State :=
  {| heap := heap st; trace := trace st ++ [ev] |}.

Definition emit {E} (ev : Event) : M E unit :=
  fun st => (record ev st, Ret tt).

End Items.

Arguments Body : clear implicits.
Arguments GaxiosResponse : clear implicits.
Arguments JsError : clear implicits.
Arguments Outcome : clear implicits.
Arguments Event : clear implicits.
Arguments State : clear implicits.
Arguments M : clear implicits.

Declare Scope client_scope.
Delimit Scope client_scope with client.
Notation "x <- m ;; k" := (bind m (fun x => k))
  (at level 100, m at next level, right associativity) : client_scope.
Notation "m ;; k" := (bind m (fun _ => k))
  (at level 100, right associativity) : client_scope.
Open Scope client_scope.

(** ** JavaScript conversions used by the client *)

(** Truthiness of a string: non-empty. *)
Definition truthy (s : string) : bool := negb (String.eqb s "").




(** Decimal rendering of a page number or a page size in a template
    literal. *)
Definition show_nat (n : nat) : string :=
  NilZero.string_of_uint (Nat.to_uint n).

(** ** The client *)

Record APIClient := {
  config : IntegrationConfig;
  headers : loc;
}.

Definition RATE_LIMIT_SLEEP_TIME : Z := 5000.
Definition MAX_RETRIES : nat := 3.
Definition PAGE_SIZE : nat := 100.
Definition BASE_URL : string := "https://api.umbrella.com".

(** The headers object a client is constructed with. *)
Definition initial_headers : HeadersObject :=
  {[ "Content-Type" := "application/json"; "Authorization" := "" ]}.

Section Client.

Context {T : Type}.

(** The HTTP primitive: the outcome of a request, given everything that
    happened before it. *)
Variable server : list (Event T) -> HttpRequest -> Outcome T.

(** [Buffer.from(s).toString('base64')] *)
Variable base64 : string -> string.

Local Abbreviation M := (M T).

(** [heap[l]], an object without properties when nothing is there. *)
Definition heap_get (h : gmap loc HeadersObject) (l : loc) : HeadersObject :=
  default ∅ (h !! l).

(** [this.headers.Authorization]; [undefined] reads as the empty string,
    which is as falsy. *)
Definition Authorization (c : APIClient) (st : State T) : string :=
  default "" (heap_get (heap st) (headers c) !! "Authorization").

(** [this.headers.Authorization = v] *)
Definition store_Authorization (c : APIClient) (v : string) (st : State T)
  : State T :=
  {| heap := <[headers c :=
                <["Authorization" := v]> (heap_get (heap st) (headers c))]>
              (heap st);
     trace := trace st |}.

Definition set_Authorization {E} (c : APIClient) (v : string) : M E unit :=
  fun st => (store_Authorization c v st, Ret tt).

Definition read_Authorization {E} (c : APIClient) : M E string :=
  fun st => (st, Ret (Authorization c st)).

(** The request as sent: the headers are read when the call is made. *)
Definition resolve (h : gmap loc HeadersObject) (o : GaxiosOptions)
  : HttpRequest :=
  {| req_url := opt_url o;
     req_method := opt_method o;
     req_headers := match opt_headers o with
                    | SharedObject l => heap_get h l
                    | ObjectLiteral m => m
                    end;
     req_data := opt_data o |}.

(** [await request(opts)] *)
Definition request (o : GaxiosOptions) : M (JsError T) (GaxiosResponse T) :=
  fun st =>
    let req := resolve (heap st) o in
    let out := server (trace st) req in
    let st' := record (EvRequest req out) st in
    match out with
    | Resolved r => (st', Ret r)
    | Rejected e => (st', Throw e)
    end.

(** [response.data.access_token] inside a template literal. *)
Definition access_token_of (b : Body T) : string :=
  match b with
  | BToken t => t
  | _ => "undefined"
  end.

Definition token_options (c : APIClient) : GaxiosOptions :=
  let encodedCredentials :=
    base64 (clientId (config c) ++ ":" ++ clientSecret (config c)) in
  {| opt_url := BASE_URL ++ "/auth/v2/token";
     opt_method := "POST";
     opt_headers :=
       ObjectLiteral {[ "Authorization" := "Basic " ++ encodedCredentials ]};
     opt_data := Some {| token_type := "bearer"; expires_in := 3600 |} |}.

Definition getToken (c : APIClient) : M (JsError T) string :=
  auth <- read_Authorization c ;;
  if truthy auth then ret auth
  else
    response <- request (token_options c) ;;
    set_Authorization c ("Bearer " ++ access_token_of (res_data response)) ;;
    read_Authorization c.

(** [err.response?.status] and friends. *)
Definition err_response (err : JsError T) : option (GaxiosResponse T) :=
  match err with
  | GaxiosError _ response => response
  | OtherError _ _ => None
  end.

Definition err_status (err : JsError T) : option Z :=
  res_status <$> err_response err.

Definition err_retry_after (err : JsError T) : option string :=
  r ← err_response err; res_headers r !! "retry-after".

Definition createIntegrationError {E}
    (status : option Z) (statusText endpoint : option string)
  : M E IntegrationErr :=
  emit (EvLog (LogFetchError status statusText endpoint)) ;;
  ret (match status with
       | Some 401%Z =>
           IntegrationProviderAuthenticationError status statusText endpoint
       | Some 403%Z =>
           IntegrationProviderAuthorizationError status statusText endpoint
       | _ => IntegrationProviderAPIError status statusText endpoint
       end).

(** The time slept on a 429:
    [headers['retry-after'] ? headers['retry-after'] * 1000
                            : this.RATE_LIMIT_SLEEP_TIME]. *)
Definition sleepTime (err : JsError T) : SleepTime :=
  match err_retry_after err with
  | Some s => if truthy s then HeaderSeconds s
              else FixedMs RATE_LIMIT_SLEEP_TIME
  | None => FixedMs RATE_LIMIT_SLEEP_TIME
  end.

Definition is_auth_status (s : option Z) : bool :=
  bool_decide (s = Some 401%Z) || bool_decide (s = Some 403%Z).

(** The [try] block of [requestWithRetry]. *)
Definition attempt (c : APIClient) (requestOptions : GaxiosOptions)
  : M (JsError T) (GaxiosResponse T) :=
  getToken c ;;
  request requestOptions.

(** The [catch] block: the new value of [retryCounter], or the error
    thrown. *)
Definition on_error (c : APIClient) (err : JsError T) (retryCounter : nat)
  : M IntegrationErr nat :=
  if bool_decide (err_status err = Some 429%Z) then
    emit (EvLog (LogRateLimit (sleepTime err))) ;;
    let retryCounter := S retryCounter in
    emit (EvSleep (sleepTime err)) ;;
    ret retryCounter
  else if is_auth_status (err_status err) && (retryCounter =? 0)%nat then
    emit (EvLog LogAuthRefresh) ;;
    set_Authorization c "" ;;
    ret (S retryCounter)
  else
    match err with
    | GaxiosError _ _ =>
        e <- createIntegrationError
               (err_status err)
               (res_statusText <$> err_response err)
               (res_config_url <$> err_response err) ;;
        throw e
    | OtherError name message =>
        throw (IntegrationError message name)
    end.

(** One round of the [do ... while]: the response returned, or the counter
    to go on with. *)
Definition retry_round (c : APIClient) (requestOptions : GaxiosOptions)
    (retryCounter : nat)
  : M IntegrationErr (GaxiosResponse T + nat) :=
  try_catch
    (response <- attempt c requestOptions ;; ret (inl response))
    (fun err => n <- on_error c err retryCounter ;; ret (inr n)).

Fixpoint retry_loop (fuel : nat) (c : APIClient)
    (requestOptions : GaxiosOptions) (retryCounter : nat)
  : M IntegrationErr (option (GaxiosResponse T)) :=
  match fuel with
  | O => out_of_fuel
  | S fuel' =>
      r <- retry_round c requestOptions retryCounter ;;
      match r with
      | inl response => ret (Some response)
      | inr retryCounter =>
          if (retryCounter <? MAX_RETRIES)%nat
          then retry_loop fuel' c requestOptions retryCounter
          else ret None
      end
  end.

(** The counter grows with every round that goes on, so [MAX_RETRIES]
    rounds are all the loop can make. *)
Definition requestWithRetry (c : APIClient) (requestOptions : GaxiosOptions)
  : M IntegrationErr (option (GaxiosResponse T)) :=
  retry_loop MAX_RETRIES c requestOptions 0.

Definition verify_options (c : APIClient) : GaxiosOptions :=
  {| opt_url := BASE_URL ++ "/deployments/v2/sites?limit=1";
     opt_method := "GET";
     opt_headers := SharedObject (headers c);
     opt_data := None |}.

Definition verifyAuthentication (c : APIClient) : M IntegrationErr unit :=
  let requestOpts := verify_options c in
  response <- requestWithRetry c requestOpts ;;
  match response with
  | Some _ => ret tt
  | None => ret tt
  end.

(** ** Pagination *)

(** [ResourceIteratee<T>]: what the caller runs on each record.  It may
    use the client again, and what it throws passes through the iterators
    as it is. *)
Definition ResourceIteratee : Type := T -> M IntegrationErr unit.

(** [for (const item of items) { await iteratee(item); }] *)
Fixpoint for_each (items : list T) (iteratee : ResourceIteratee)
  : M IntegrationErr unit :=
  match items with
  | [] => ret tt
  | item :: rest => iteratee item ;; for_each rest iteratee
  end.

(** The variables of the two iterator loops. *)
Record LoopVars := {
  page : nat;
  done : bool;
  receivedCount : nat;
}.

Definition initial_vars : LoopVars :=
  {| page := 1; done := false; receivedCount := 0 |}.

Definition page_options (c : APIClient) (requestUrl : string) (page : nat)
  : GaxiosOptions :=
  {| opt_url := BASE_URL ++ requestUrl
                ++ "?page=" ++ show_nat page
                ++ "&limit=" ++ show_nat PAGE_SIZE;
     opt_method := "GET";
     opt_headers := SharedObject (headers c);
     opt_data := None |}.

(** The body of the loop of [requestIterator]. *)
Definition requestIterator_body (c : APIClient) (requestUrl : string)
    (iteratee : ResourceIteratee) (v : LoopVars)
  : M IntegrationErr LoopVars :=
  response <- requestWithRetry c (page_options c requestUrl (page v)) ;;
  match response with
  | Some {| res_data := BArray items |} =>
      if (0 <? length items)%nat then
        for_each items iteratee ;;
        ret {| page := S (page v); done := done v;
               receivedCount := length items |}
      else
        ret {| page := page v; done := true;
               receivedCount := receivedCount v |}
  | _ =>
      ret {| page := page v; done := true;
             receivedCount := receivedCount v |}
  end.

(** The body of the loop of [requestIteratorWithNestedData]. *)
Definition requestIteratorWithNestedData_body (c : APIClient)
    (requestUrl : string) (iteratee : ResourceIteratee) (v : LoopVars)
  : M IntegrationErr LoopVars :=
  response <- requestWithRetry c (page_options c requestUrl (page v)) ;;
  match response with
  | Some {| res_data := BMeta (Some items) |} =>
      for_each items iteratee ;;
      ret {| page := S (page v); done := done v;
             receivedCount := length items |}
  | _ =>
      ret {| page := page v; done := true;
             receivedCount := receivedCount v |}
  end.

(** [do { v = body(v) } while (!done && receivedCount == PAGE_SIZE)], for at
    most [fuel] rounds. *)
Fixpoint do_while (fuel : nat) (body : LoopVars -> M IntegrationErr LoopVars)
    (v : LoopVars) : M IntegrationErr unit :=
  match fuel with
  | O => out_of_fuel
  | S fuel' =>
      v' <- body v ;;
      if negb (done v') && (receivedCount v' =? PAGE_SIZE)%nat
      then do_while fuel' body v'
      else ret tt
  end.

Definition requestIterator (fuel : nat) (c : APIClient)
    (requestUrl : string) (iteratee : ResourceIteratee)
  : M IntegrationErr unit :=
  do_while fuel (requestIterator_body c requestUrl iteratee) initial_vars.

Definition requestIteratorWithNestedData (fuel : nat) (c : APIClient)
    (requestUrl : string) (iteratee : ResourceIteratee)
  : M IntegrationErr unit :=
  do_while fuel (requestIteratorWithNestedData_body c requestUrl iteratee)
    initial_vars.

(** The id of a destination list is a JavaScript number; the template
    literal renders it with the [ToString] of the language, which is taken
    as it is. *)
Variable number : Type.
Variable ToString : number -> string.

(** The resource iterators: an endpoint and one of the two shapes. *)
Definition iterateDestinations fuel c (destinationListId : number) iteratee :=
  requestIteratorWithNestedData fuel c
    ("/policies/v2/destinationlists/" ++ ToString destinationListId
     ++ "/destinations") iteratee.
Definition iterateDestinationLists fuel c iteratee :=
  requestIteratorWithNestedData fuel c "/policies/v2/destinationlists"
    iteratee.
Definition iterateDomains fuel c iteratee :=
  requestIterator fuel c "/deployments/v2/internaldomains" iteratee.
Definition iterateNetworks fuel c iteratee :=
  requestIterator fuel c "/deployments/v2/internalnetworks" iteratee.
Definition iterateNetworkTunnels fuel c iteratee :=
  requestIterator fuel c "/deployments/v2/tunnels" iteratee.
Definition iteratePolicies fuel c iteratee :=
  requestIterator fuel c "/deployments/v2/policies" iteratee.
Definition iterateSites fuel c iteratee :=
  requestIterator fuel c "/deployments/v2/sites" iteratee.
Definition iterateVirtualAppliances fuel c iteratee :=
  requestIterator fuel c "/deployments/v2/virtualappliances" iteratee.
Definition iterateApplications fuel c iteratee :=
  requestIterator fuel c "/reports/v2/appDiscovery/applications" iteratee.
Definition iterateApplicationCategories fuel c iteratee :=
  requestIterator fuel c "/reports/v2/appDiscovery/applicationCategories"
    iteratee.
Definition iterateDevices fuel c iteratee :=
  requestIterator fuel c "/deployments/v2/networkdevices" iteratee.
Definition iterateUsers fuel c iteratee :=
  requestIterator fuel c "/admin/v2/users" iteratee.
Definition iterateRoles fuel c iteratee :=
  requestIterator fuel c "/admin/v2/roles" iteratee.

(** An iteratee that only records the record it is given. *)
Definition record_item : ResourceIteratee :=
  fun item => emit (EvCallback item).

(** The variables after a round that found nothing to iterate. *)
Definition stopped (v : LoopVars) : LoopVars :=
  {| page := page v; done := true; receivedCount := receivedCount v |}.

(** The variables after a round that iterated [items]. *)
Definition advanced (v : LoopVars) (items : list T) : LoopVars :=
  {| page := S (page v); done := done v; receivedCount := length items |}.

(** ** States the client passes through *)

(** The state after a token exchange answered by [r]. *)
Definition token_stored (c : APIClient) (r : GaxiosResponse T)
    (st : State T) : State T :=
  store_Authorization c ("Bearer " ++ access_token_of (res_data r))
    (record (EvRequest (resolve (heap st) (token_options c)) (Resolved r))
       st).

(** The state after a 429 has been absorbed: the log line and the sleep. *)
Definition after_rate_limit (err : JsError T) (st : State T) : State T :=
  record (EvSleep (sleepTime err))
    (record (EvLog (LogRateLimit (sleepTime err))) st).

(** The state after a first 401 or 403: the log line, the token cleared. *)
Definition after_auth_failure (c : APIClient) (st : State T) : State T :=
  store_Authorization c "" (record (EvLog LogAuthRefresh) st).

(** The log line written when a fatal HTTP error is raised. *)
Definition fetch_error_logged (err : JsError T) (st : State T)
  : State T :=
  record (EvLog (LogFetchError (err_status err)
                   (res_statusText <$> err_response err)
                   (res_config_url <$> err_response err))) st.

(** [e] is the error that wraps the failure [err]: the typed error of
    [createIntegrationError] for a [GaxiosError], by the status of its
    response (a [GaxiosError] without response has no status, no statusText
    and no endpoint to pass on), the generic [IntegrationError] for any
    other error. *)
Definition wraps (e : IntegrationErr) (err : JsError T) : Prop :=
  (forall m r, err = GaxiosError m (Some r) ->
     res_status r = 401%Z ->
     e = IntegrationProviderAuthenticationError (Some 401%Z)
           (Some (res_statusText r)) (Some (res_config_url r)))
  /\ (forall m r, err = GaxiosError m (Some r) ->
        res_status r = 403%Z ->
        e = IntegrationProviderAuthorizationError (Some 403%Z)
              (Some (res_statusText r)) (Some (res_config_url r)))
  /\ (forall m r, err = GaxiosError m (Some r) ->
        res_status r <> 401%Z -> res_status r <> 403%Z ->
        e = IntegrationProviderAPIError (Some (res_status r))
              (Some (res_statusText r)) (Some (res_config_url r)))
  /\ (forall m, err = GaxiosError m None ->
        e = IntegrationProviderAPIError None None None)
  /\ (forall name message, err = OtherError name message ->
        e = IntegrationError message name).

End Client.

(** ** A provider that holds pages of records *)

Section Provider.

Context {T : Type}.

Definition ok_response (url : string) (b : Body T) : GaxiosResponse T :=
  {| res_status := 200;
     res_statusText := "OK";
     res_headers := ∅;
     res_data := b;
     res_config_url := url |}.

Definition is_listing (ev : Event T) : bool :=
  match ev with
  | EvRequest req _ => String.eqb (req_method req) "GET"
  | _ => false
  end.

(** The number of GET requests in a trace. *)
Fixpoint listings (tr : list (Event T)) : nat :=
  match tr with
  | [] => 0
  | ev :: rest => (if is_listing ev then 1 else 0) + listings rest
  end.

(** The provider grants [token] at every exchange, and answers the n-th GET
    request it receives with the n-th of [pages], put in [envelope]; once
    the pages are used up it answers with an empty page. *)
Definition paged_provider (token : string) (envelope : list T -> Body T)
    (pages : list (list T)) : list (Event T) -> HttpRequest -> Outcome T :=
  fun tr req =>
    if String.eqb (req_method req) "POST" then
      Resolved (ok_response (req_url req) (BToken token))
    else
      Resolved (ok_response (req_url req)
                  (envelope (nth (listings tr) pages []))).

(** The pages an iteration is expected to fetch: every page up to the first
    one that does not hold exactly [PAGE_SIZE] records, the empty page the
    provider answers with when all its pages are full. *)
Fixpoint served (pages : list (list T)) : list (list T) :=
  match pages with
  | [] => [[]]
  | p :: rest =>
      if (length p =? PAGE_SIZE)%nat then p :: served rest else [p]
  end.

(** The events of fetching [pages] from page number [n] on with a recording
    iteratee: each request, answered, then one callback per record. *)
Fixpoint listing_events (h : gmap loc HeadersObject) (c : APIClient)
    (requestUrl : string) (envelope : list T -> Body T) (n : nat)
    (pages : list (list T)) : list (Event T) :=
  match pages with
  | [] => []
  | p :: rest =>
      (EvRequest (resolve h (page_options c requestUrl n))
         (Resolved (ok_response (opt_url (page_options c requestUrl n))
                      (envelope p)))
       :: map EvCallback p)
      ++ listing_events h c requestUrl envelope (S n) rest
  end.

(** The records handed to the iteratee, in order. *)
Fixpoint callbacks (tr : list (Event T)) : list T :=
  match tr with
  | [] => []
  | EvCallback item :: rest => item :: callbacks rest
  | _ :: rest => callbacks rest
  end.

(** The urls of the GET requests, in order. *)
Fixpoint listing_urls (tr : list (Event T)) : list string :=
  match tr with
  | [] => []
  | ev :: rest =>
      match ev with
      | EvRequest req _ =>
          if is_listing ev then req_url req :: listing_urls rest
          else listing_urls rest
      | _ => listing_urls rest
      end
  end.

(** The Authorization header of each GET request, in order. *)
Fixpoint sent_authorization (tr : list (Event T)) : list (option string) :=
  match tr with
  | [] => []
  | ev :: rest =>
      match ev with
      | EvRequest req _ =>
          if is_listing ev
          then (req_headers req !! "Authorization") :: sent_authorization rest
          else sent_authorization rest
      | _ => sent_authorization rest
      end
  end.

(** The state once the client holds a token of this provider. *)
Definition with_token (base64 : string -> string) (c : APIClient)
    (token : string) (st : State T) : State T :=
  if truthy (Authorization c st) then st
  else
    token_stored base64 c
      (ok_response (opt_url (token_options base64 c)) (BToken token)) st.

End Provider.

(** ** Iterating over such a provider *)

Section Iteration.

Context {T : Type}.
Variable base64 : string -> string.
Variable token : string.
Variable envelope : list T -> Body T.
Variable c : APIClient.
Variable requestUrl : string.
Variable pages : list (list T).

Local Abbreviation with_token := (with_token base64 c token).

Implicit Types (st : State T).

(** The state and the result of a whole iteration that starts, at page
    number [n], in a state where the provider has [rest] left to serve. *)
Definition iterated st (n : nat) (rest : list (list T))
  : State T * Result IntegrationErr unit :=
  ({| heap := heap (with_token st);
      trace := trace (with_token st)
               ++ listing_events (heap (with_token st)) c requestUrl envelope
                    n (served rest) |},
   Ret tt).

(** The state after one round at page number [n] that was answered with the
    page [p]. *)
Definition after_round st (n : nat) (p : list T) : State T :=
  {| heap := heap (with_token st);
     trace := trace (with_token st)
              ++ EvRequest (resolve (heap (with_token st))
                              (page_options c requestUrl n))
                   (Resolved
                      (ok_response (opt_url (page_options c requestUrl n))
                         (envelope p)))
                 :: map EvCallback p |}.

(** What a loop body has to do in one round against this provider: fetch
    the next page, hand its records to the iteratee, and ask for another
    round exactly when the page is full. *)
Definition round_ok (body : LoopVars -> M T IntegrationErr LoopVars) : Prop :=
  forall v st,
    done v = false ->
    let p := nth (listings (trace st)) pages [] in
    exists v',
      body v st = (after_round st (page v) p, Ret v')
      /\ negb (done v') && (receivedCount v' =? PAGE_SIZE)%nat
         = (length p =? PAGE_SIZE)%nat
      /\ ((length p =? PAGE_SIZE)%nat = true ->
          done v' = false /\ page v' = S (page v)).

End Iteration.

(** ** Sequences of iterations and the use of the token endpoint *)

Section Discipline.

Context {T : Type}.
Variable server : list (Event T) -> HttpRequest -> Outcome T.
Variable base64 : string -> string.

(** One call of a resource iterator. *)
Inductive Iteration :=
| Flat (requestUrl : string)
| Nested (requestUrl : string).

Definition run_iteration (fuel : nat) (c : APIClient)
    (iteratee : ResourceIteratee) (it : Iteration)
  : M T IntegrationErr unit :=
  match it with
  | Flat requestUrl => requestIterator server base64 fuel c requestUrl iteratee
  | Nested requestUrl =>
      requestIteratorWithNestedData server base64 fuel c requestUrl iteratee
  end.

(** The state after the iterations [its], run one after the other on the
    same client; an iteration that raises does not keep the later ones from
    running. *)
Fixpoint iterations (fuel : nat) (c : APIClient)
    (iteratee : ResourceIteratee) (its : list Iteration) (st : State T)
  : State T :=
  match its with
  | [] => st
  | it :: rest =>
      iterations fuel c iteratee rest
        (fst (run_iteration fuel c iteratee it st))
  end.

(** A POST to the token endpoint. *)
Definition is_token_post (req : HttpRequest) : bool :=
  String.eqb (req_method req) "POST"
  && String.eqb (req_url req) (BASE_URL ++ "/auth/v2/token").

(** The number of token exchanges issued, and of those that were granted. *)
Fixpoint exchanges (tr : list (Event T)) : nat :=
  match tr with
  | [] => 0
  | EvRequest req _ :: rest =>
      (if is_token_post req then 1 else 0) + exchanges rest
  | _ :: rest => exchanges rest
  end.

Fixpoint granted (tr : list (Event T)) : nat :=
  match tr with
  | [] => 0
  | EvRequest req (Resolved _) :: rest =>
      (if is_token_post req then 1 else 0) + granted rest
  | _ :: rest => granted rest
  end.

(** A request was rejected with status 401 or 403. *)
Definition is_auth_failure (ev : Event T) : bool :=
  match ev with
  | EvRequest _ (Rejected err) => is_auth_status (err_status err)
  | _ => false
  end.

Definition observes_auth_failure (tr : list (Event T)) : bool :=
  existsb is_auth_failure tr.

(** Following a trace with one bit, whether a token is held: an exchange is
    only issued when none is held, and a granted exchange makes one held.
    [None] when the trace breaks this. *)
Fixpoint token_discipline (held : bool) (tr : list (Event T)) : option bool :=
  match tr with
  | [] => Some held
  | EvRequest req out :: rest =>
      if is_token_post req then
        if held then None
        else token_discipline
               (match out with Resolved _ => true | Rejected _ => false end)
               rest
      else token_discipline held rest
  | _ :: rest => token_discipline held rest
  end.

(** From [st] to [st'] the trace has grown by events that, unless a 401 or
    403 is among them, follow the discipline and end with the token slot in
    the state the discipline predicts. *)
Definition disciplined (c : APIClient) (st st' : State T) : Prop :=
  exists evs,
    trace st' = (trace st ++ evs)%list
    /\ (observes_auth_failure evs = false ->
        token_discipline (truthy (Authorization c st)) evs
        = Some (truthy (Authorization c st'))).

(** A computation that keeps the discipline from every state. *)
Definition respects {E A} (c : APIClient) (m : M T E A) : Prop :=
  forall st, disciplined c st (fst (m st)).

(** The number of requests in a trace. *)
Fixpoint requests (tr : list (Event T)) : nat :=
  match tr with
  | [] => 0
  | EvRequest _ _ :: rest => S (requests rest)
  | _ :: rest => requests rest
  end.

(** A provider that answers the n-th request it receives with the n-th
    outcome of [script], and with [fallback] after that. *)
Definition scripted (script : list (Outcome T)) (fallback : Outcome T)
  : list (Event T) -> HttpRequest -> Outcome T :=
  fun tr _ => nth (requests tr) script fallback.

End Discipline.

(** ** What the client does to the state, and how much *)

Section Effects.

Context {T : Type}.

(** A computation that takes every state to one related to it by [R]. *)
Definition preserves {E A} (R : State T -> State T -> Prop) (m : M T E A)
  : Prop :=
  forall st, R st (fst (m st)).

(** From [st] to [st'] no header object has changed, but for the
    Authorization field of the client's own one, and the trace has only
    grown. *)
Definition only_token_changed (c : APIClient) (st st' : State T) : Prop :=
  (forall l key,
     l <> headers c \/ key <> "Authorization" ->
     heap_get (heap st') l !! key = heap_get (heap st) l !! key)
  /\ exists evs, trace st' = (trace st ++ evs)%list.

(** The method and url of the requests of a trace, in the order issued. *)
Fixpoint request_lines (tr : list (Event T)) : list (string * string) :=
  match tr with
  | [] => []
  | EvRequest req _ :: rest =>
      (req_method req, req_url req) :: request_lines rest
  | _ :: rest => request_lines rest
  end.


(** The number of sleeps in a trace, and of token refreshes announced. *)
Fixpoint sleeps (tr : list (Event T)) : nat :=
  match tr with
  | [] => 0
  | EvSleep _ :: rest => S (sleeps rest)
  | _ :: rest => sleeps rest
  end.

Fixpoint refreshes (tr : list (Event T)) : nat :=
  match tr with
  | [] => 0
  | EvLog LogAuthRefresh :: rest => S (refreshes rest)
  | _ :: rest => refreshes rest
  end.

(** The requests a state accounts for: those issued, and the token exchange
    still to come when no token is held. *)
Definition pending_requests (c : APIClient) (st : State T) : nat :=
  requests (trace st) + (if truthy (Authorization c st) then 0 else 1).

(** An iteratee that records its record and throws [e] on a bad one. *)
Definition picky_iteratee (bad : T -> bool) (e : IntegrationErr)
  : @ResourceIteratee T :=
  fun item =>
    emit (EvCallback item) ;;
    if bad item then throw e else ret tt.

(** A provider that never runs out: it grants [token] at every exchange and
    answers every other request with the same [page]. *)
Definition endless_provider (token : string) (page : Body T)
  : list (Event T) -> HttpRequest -> Outcome T :=
  fun tr req =>
    if String.eqb (req_method req) "POST" then
      Resolved (ok_response (req_url req) (BToken token))
    else
      Resolved (ok_response (req_url req) page).

(** *** The client of the process *)

(** The module variable [client] together with the rest of the state. *)
Record Process := {
  singleton : option APIClient;
  memory : State T;
}.

(** [new APIClient(config, logger)]: the headers object of the instance is
    a new object on the heap. *)
Definition new_APIClient (config : IntegrationConfig) (st : State T)
  : APIClient * State T :=
  let l := fresh (dom (heap st)) in
  ({| config := config; headers := l |},
   {| heap := <[l := initial_headers]> (heap st); trace := trace st |}).

Definition getOrCreateAPIClient (config : IntegrationConfig) (p : Process)
  : APIClient * Process :=
  match singleton p with
  | Some client => (client, p)
  | None =>
      let '(client, st) := new_APIClient config (memory p) in
      (client, {| singleton := Some client; memory := st |})
  end.

End Effects.

Arguments Process : clear implicits.

(** ** Graph keys of the converters *)

Section Keys.

(** [Entities.POLICY._type] and [Entities.NETWORK_TUNNEL._type], constants
    of the integration. *)
Variable POLICY_type : string.
Variable NETWORK_TUNNEL_type : string.

(** The ids are JavaScript numbers; a template literal renders them with
    the [ToString] of the language, which is taken as it is. *)
Variable number : Type.
Variable ToString : number -> string.

Definition createPolicyKey (id : number) : string :=
  POLICY_type ++ ":" ++ ToString id.

Definition createNetworkTunnelKey (id : number) : string :=
  NETWORK_TUNNEL_type ++ ":" ++ ToString id.

(** No colon occurs in [s]. *)
Fixpoint colon_free (s : string) : bool :=
  match s with
  | EmptyString => true
  | String ch rest =>
      negb (String.eqb (String ch EmptyString) ":") && colon_free rest
  end.

End Keys.

End Umbrella.

Import Umbrella.

(** ** Concrete runs *)

Module Scenario.

Definition client : APIClient :=
  {| config := {| clientId := "id"; clientSecret := "secret" |};
     headers := 0 |}.

(** The state of a client that was just constructed. *)
Definition fresh : State nat :=
  {| heap := {[ 0 := initial_headers ]}; trace := [] |}.

(** An encoder that leaves the credentials as they are: no property below
    depends on the encoding. *)
Definition plain (s : string) : string := s.

Definition sites : string := "/deployments/v2/sites".

Definition token_url : string := BASE_URL ++ "/auth/v2/token".

Definition grant (token : string) : Outcome nat :=
  Resolved (ok_response token_url (BToken token)).

Definition page_of (url : string) (items : list nat) : Outcome nat :=
  Resolved (ok_response url (BArray items)).

Definition error_response (status : Z) (statusText : string)
    (hdrs : HeadersObject) (url : string) : GaxiosResponse nat :=
  {| res_status := status;
     res_statusText := statusText;
     res_headers := hdrs;
     res_data := BOther;
     res_config_url := url |}.

Definition failure (status : Z) (statusText : string)
    (hdrs : HeadersObject) (url : string) : JsError nat :=
  GaxiosError "Request failed"
    (Some (error_response status statusText hdrs url)).

(** The request for the first page of sites, and a page it may return. *)
Definition opts : GaxiosOptions := page_options client sites 1.

Definition sites_page_1 : string := opt_url opts.

Definition sites_page : GaxiosResponse nat :=
  ok_response sites_page_1 (BArray [1; 2; 3]).

Definition too_many (hdrs : HeadersObject) : JsError nat :=
  failure 429 "Too Many Requests" hdrs sites_page_1.

Definition unauthorized : JsError nat :=
  failure 401 "Unauthorized" ∅ sites_page_1.

Definition server_error : JsError nat :=
  failure 500 "Internal Server Error" ∅ sites_page_1.

Definition refused : JsError nat :=
  OtherError "FetchError" "connect ECONNREFUSED".

(** Three full or short pages of 100, 100 and 47 records. *)
Definition three_pages : list (list nat) :=
  [replicate 100 7; replicate 100 8; replicate 47 9].

(** The token is granted, then the provider answers 429 for ever. *)
Definition rate_limiting : list (Event nat) -> HttpRequest -> Outcome nat :=
  scripted [grant "t1"] (Rejected (too_many ∅)).


(** The first token is refused with 401, the second one is accepted. *)
Definition expired_token : list (Event nat) -> HttpRequest -> Outcome nat :=
  scripted [grant "t1"; Rejected unauthorized; grant "t2"]
    (page_of sites_page_1 [1; 2; 3]).

(** Every token is refused with 401. *)
Definition bad_credentials : list (Event nat) -> HttpRequest -> Outcome nat :=
  scripted [grant "t1"; Rejected unauthorized; grant "t2"]
    (Rejected unauthorized).

(** The token is granted, then the provider fails. *)
Definition failing : list (Event nat) -> HttpRequest -> Outcome nat :=
  scripted [grant "t1"] (Rejected server_error).

(** The token endpoint answers 429 once, then grants the token. *)
Definition slow_token : list (Event nat) -> HttpRequest -> Outcome nat :=
  scripted [Rejected (failure 429 "Too Many Requests" ∅ token_url);
            grant "t1"]
    (page_of sites_page_1 [1; 2; 3]).

(** No request gets through. *)
Definition unreachable : list (Event nat) -> HttpRequest -> Outcome nat :=
  scripted [] (Rejected refused).

(** A 429, then the token is refused with 401. *)
Definition stale_after_limit : list (Event nat) -> HttpRequest -> Outcome nat :=
  scripted [grant "t1"; Rejected (too_many ∅)] (Rejected unauthorized).


(** The token is refused with 401, the exchange that follows is answered
    with 429, the next one is granted. *)
Definition refresh_rate_limited
  : list (Event nat) -> HttpRequest -> Outcome nat :=
  scripted [grant "t1"; Rejected unauthorized;
            Rejected (failure 429 "Too Many Requests" ∅ token_url);
            grant "t2"]
    (page_of sites_page_1 [1; 2; 3]).

(** The connection drops: gaxios rejects with a GaxiosError that carries
    no response. *)
Definition hang_up : JsError nat := GaxiosError "socket hang up" None.

Definition hanging_up : list (Event nat) -> HttpRequest -> Outcome nat :=
  scripted [grant "t1"] (Rejected hang_up).

(** Ids that are integers, rendered in decimal. *)
Definition decimal (id : Z) : string := NilZero.string_of_int (Z.to_int id).

(** The process before any client was asked for. *)
Definition cold : Process nat :=
  {| singleton := None; memory := {| heap := ∅; trace := [] |} |}.

(** An iteratee that throws on the record 13. *)
Definition unlucky : IntegrationErr := IntegrationError "unlucky" "E13".

Definition superstitious : @ResourceIteratee nat :=
  picky_iteratee (Nat.eqb 13) unlucky.

(** A request spec that comes with a headers object of its own. *)
Definition own_headers : GaxiosOptions :=
  {| opt_url := sites_page_1;
     opt_method := "GET";
     opt_headers := ObjectLiteral {[ "Accept" := "application/json" ]};
     opt_data := None |}.

End Scenario.

(** * Properties *)

Section Properties.

Context {T : Type}.
Variable server : list (Event T) -> HttpRequest -> Outcome T.
Variable base64 : string -> string.

Local Abbreviation getToken := (getToken server base64).
Local Abbreviation request := (request server).
Local Abbreviation attempt := (attempt server base64).
Local Abbreviation on_error := (@on_error T).
Local Abbreviation retry_round := (retry_round server base64).
Local Abbreviation retry_loop := (retry_loop server base64).
Local Abbreviation requestWithRetry := (requestWithRetry server base64).
Local Abbreviation verifyAuthentication := (verifyAuthentication server base64).
Local Abbreviation token_options := (token_options base64).
Local Abbreviation token_stored := (token_stored base64).
Local Abbreviation requestIterator := (requestIterator server base64).
Local Abbreviation requestIteratorWithNestedData :=
  (requestIteratorWithNestedData server base64).
Local Abbreviation requestIterator_body :=
  (requestIterator_body server base64).
Local Abbreviation requestIteratorWithNestedData_body :=
  (requestIteratorWithNestedData_body server base64).
Local Abbreviation do_while := (@do_while T).

Implicit Types (c : APIClient) (st : State T) (err : JsError T).
Implicit Types (opts : GaxiosOptions) (k fuel : nat).

(** ** States *)

Lemma truthy_true s : truthy s = true <-> s <> "".
Proof.
  unfold truthy. rewrite negb_true_iff. apply String.eqb_neq.
Qed.

Lemma truthy_false s : truthy s = false <-> s = "".
Proof.
  unfold truthy. rewrite negb_false_iff. apply String.eqb_eq.
Qed.

Lemma heap_record (ev : Event T) st : heap (record ev st) = heap st.
Proof. reflexivity. Qed.

Lemma trace_record (ev : Event T) st :
  trace (record ev st) = (trace st ++ [ev])%list.
Proof. reflexivity. Qed.

Lemma Authorization_record c (ev : Event T) st :
  Authorization c (record ev st) = Authorization c st.
Proof. reflexivity. Qed.

Lemma trace_store c v st : trace (store_Authorization c v st) = trace st.
Proof. reflexivity. Qed.

Lemma Authorization_store c v st :
  Authorization c (store_Authorization c v st) = v.
Proof.
  unfold Authorization, store_Authorization, heap_get. simpl.
  rewrite lookup_insert_eq. simpl. by rewrite lookup_insert_eq.
Qed.

(** ** The token *)

Lemma getToken_held c st :
  Authorization c st <> "" ->
  getToken c st = (st, Ret (Authorization c st)).
Proof.
  intros Hheld. apply truthy_true in Hheld.
  unfold Umbrella.getToken, bind, read_Authorization. by rewrite Hheld.
Qed.

Lemma getToken_exchange c st r :
  Authorization c st = "" ->
  server (trace st) (resolve (heap st) (token_options c)) = Resolved r ->
  getToken c st
  = (token_stored c r st, Ret ("Bearer " ++ access_token_of (res_data r))).
Proof.
  intros Hempty Hsrv. apply truthy_false in Hempty.
  unfold Umbrella.getToken, bind, read_Authorization. rewrite Hempty.
  unfold Umbrella.request. rewrite Hsrv. cbn [set_Authorization].
  unfold token_stored. by rewrite Authorization_store.
Qed.

Lemma getToken_rejected c st err :
  Authorization c st = "" ->
  server (trace st) (resolve (heap st) (token_options c)) = Rejected err ->
  getToken c st
  = (record (EvRequest (resolve (heap st) (token_options c)) (Rejected err))
       st, Throw err).
Proof.
  intros Hempty Hsrv. apply truthy_false in Hempty.
  unfold Umbrella.getToken, bind, read_Authorization. rewrite Hempty.
  unfold Umbrella.request. by rewrite Hsrv.
Qed.

Lemma request_resolved opts st r :
  server (trace st) (resolve (heap st) opts) = Resolved r ->
  request opts st
  = (record (EvRequest (resolve (heap st) opts) (Resolved r)) st, Ret r).
Proof. intros Hsrv. unfold Umbrella.request. by rewrite Hsrv. Qed.

Lemma request_rejected opts st err :
  server (trace st) (resolve (heap st) opts) = Rejected err ->
  request opts st
  = (record (EvRequest (resolve (heap st) opts) (Rejected err)) st,
     Throw err).
Proof. intros Hsrv. unfold Umbrella.request. by rewrite Hsrv. Qed.

Lemma attempt_held c opts st :
  Authorization c st <> "" ->
  attempt c opts st = request opts st.
Proof.
  intros Hheld. unfold Umbrella.attempt, bind.
  by rewrite getToken_held.
Qed.

(** ** The catch block *)

Lemma on_error_rate_limit c err k st :
  err_status err = Some 429%Z ->
  on_error c err k st = (after_rate_limit err st, Ret (S k)).
Proof.
  intros Hs. unfold Umbrella.on_error.
  by rewrite bool_decide_eq_true_2.
Qed.

Lemma is_auth_status_429 err :
  err_status err = Some 429%Z -> is_auth_status (err_status err) = false.
Proof. intros ->. reflexivity. Qed.

Lemma is_auth_status_true s :
  is_auth_status s = true <-> s = Some 401%Z \/ s = Some 403%Z.
Proof.
  unfold is_auth_status. rewrite orb_true_iff, !bool_decide_eq_true.
  tauto.
Qed.

Lemma on_error_auth_first c err st :
  is_auth_status (err_status err) = true ->
  on_error c err 0 st = (after_auth_failure c st, Ret 1).
Proof.
  intros Ha. unfold Umbrella.on_error.
  rewrite bool_decide_eq_false_2.
  - by rewrite Ha.
  - intros Hs. by rewrite (is_auth_status_429 _ Hs) in Ha.
Qed.

Lemma on_error_gaxios c message response k st :
  let err := GaxiosError message response in
  err_status err <> Some 429%Z ->
  is_auth_status (err_status err) && (k =? 0)%nat = false ->
  on_error c err k st
  = (fetch_error_logged err st,
     Throw (match err_status err with
            | Some 401%Z =>
                IntegrationProviderAuthenticationError (err_status err)
                  (res_statusText <$> response) (res_config_url <$> response)
            | Some 403%Z =>
                IntegrationProviderAuthorizationError (err_status err)
                  (res_statusText <$> response) (res_config_url <$> response)
            | _ =>
                IntegrationProviderAPIError (err_status err)
                  (res_statusText <$> response) (res_config_url <$> response)
            end)).
Proof.
  intros err Hs Ha. unfold Umbrella.on_error.
  rewrite bool_decide_eq_false_2 by done. by rewrite Ha.
Qed.

Lemma on_error_other c name message k st :
  on_error c (OtherError name message) k st
  = (st, Throw (IntegrationError message name)).
Proof. reflexivity. Qed.

(** The catch block never runs out of rounds, and a counter it returns is
    the old one plus one. *)
Lemma on_error_result c err k st :
  (exists st', on_error c err k st = (st', Ret (S k)))
  \/ (exists st' e, on_error c err k st = (st', Throw e)).
Proof.
  destruct (decide (err_status err = Some 429%Z)) as [Hs|Hs].
  { left. eexists. by apply on_error_rate_limit. }
  destruct (is_auth_status (err_status err) && (k =? 0)%nat) eqn:Ha.
  { left. apply andb_true_iff in Ha as [Ha Hk].
    apply Nat.eqb_eq in Hk as ->. eexists. by apply on_error_auth_first. }
  right. destruct err as [message response|name message].
  - do 2 eexists. by apply on_error_gaxios.
  - do 2 eexists. apply on_error_other.
Qed.

(** ** The loop of requestWithRetry *)

Lemma retry_loop_return fuel c opts k st st1 r :
  attempt c opts st = (st1, Ret r) ->
  retry_loop (S fuel) c opts k st = (st1, Ret (Some r)).
Proof.
  intros Ha. cbn [Umbrella.retry_loop].
  unfold bind, Umbrella.retry_round, try_catch, bind. by rewrite Ha.
Qed.

Lemma retry_loop_continue fuel c opts k st st1 err st2 :
  attempt c opts st = (st1, Throw err) ->
  on_error c err k st1 = (st2, Ret (S k)) ->
  retry_loop (S fuel) c opts k st
  = if (S k <? MAX_RETRIES)%nat then retry_loop fuel c opts (S k) st2
    else (st2, Ret None).
Proof.
  intros Ha Hh. cbn [Umbrella.retry_loop].
  unfold bind at 1. unfold Umbrella.retry_round, try_catch.
  unfold bind at 1. rewrite Ha. unfold bind at 1. rewrite Hh.
  unfold ret at 1. by destruct (S k <? MAX_RETRIES)%nat.
Qed.

Lemma retry_loop_raise fuel c opts k st st1 err st2 e :
  attempt c opts st = (st1, Throw err) ->
  on_error c err k st1 = (st2, Throw e) ->
  retry_loop (S fuel) c opts k st = (st2, Throw e).
Proof.
  intros Ha Hh. cbn [Umbrella.retry_loop].
  unfold bind at 1. unfold Umbrella.retry_round, try_catch.
  unfold bind at 1. rewrite Ha. unfold bind at 1. by rewrite Hh.
Qed.

(** The try block returns or throws. *)
Lemma attempt_result c opts st :
  (exists st1 r, attempt c opts st = (st1, Ret r))
  \/ (exists st1 err, attempt c opts st = (st1, Throw err)).
Proof.
  assert (Hreq : forall o s,
    (exists s1 r, request o s = (s1, Ret r))
    \/ (exists s1 e, request o s = (s1, Throw e))).
  { intros o s. unfold Umbrella.request.
    destruct (server _ _); [left|right]; eauto. }
  destruct (decide (Authorization c st = "")) as [He|Hh].
  - destruct (server (trace st) (resolve (heap st) (token_options c)))
      as [r|e] eqn:Hs; unfold Umbrella.attempt, bind.
    + rewrite (getToken_exchange _ _ _ He Hs). apply Hreq.
    + rewrite (getToken_rejected _ _ _ He Hs). right. eauto.
  - rewrite attempt_held by done. apply Hreq.
Qed.

(** [requestWithRetry] is total: the rounds granted to its loop always
    suffice. *)
Lemma retry_loop_total fuel c opts k st :
  MAX_RETRIES <= fuel + k -> 0 < fuel ->
  snd (retry_loop fuel c opts k st) <> OutOfFuel.
Proof.
  revert k st. induction fuel as [|fuel IH]; intros k st Hle Hpos; [lia|].
  destruct (attempt_result c opts st) as [(st1 & r & Ha)|(st1 & err & Ha)].
  { by rewrite (retry_loop_return _ _ _ _ _ _ _ Ha). }
  destruct (on_error_result c err k st1) as [(st2 & Hh)|(st2 & e & Hh)].
  - rewrite (retry_loop_continue _ _ _ _ _ _ _ _ Ha Hh).
    destruct (S k <? MAX_RETRIES)%nat eqn:Hlt; [|done].
    apply Nat.ltb_lt in Hlt. apply IH; lia.
  - by rewrite (retry_loop_raise _ _ _ _ _ _ _ _ _ Ha Hh).
Qed.

Lemma requestWithRetry_rounds c opts st :
  requestWithRetry c opts st = retry_loop 3 c opts 0 st.
Proof. reflexivity. Qed.

Lemma requestWithRetry_total c opts st :
  snd (requestWithRetry c opts st) <> OutOfFuel.
Proof. apply retry_loop_total; unfold MAX_RETRIES; lia. Qed.

(** Every operation only adds to the trace. *)
Lemma request_trace opts st :
  exists ev, trace (fst (request opts st)) = (trace st ++ [ev])%list.
Proof.
  unfold Umbrella.request. destruct (server _ _); eexists; reflexivity.
Qed.


(** ** Claims on the retrying request routine *)

(** C5: when an attempt of requestWithRetry fails with status 401 and the
    retry counter is not zero any more, the routine raises the
    authentication error built from that response, and the failed request is
    the last one it issues: only the log line follows it.  In particular a
    401 (or 403) on the first attempt followed by a 401 on the second makes
    requestWithRetry raise without a third attempt. *)
Theorem repeated_401_raises c opts k fuel st st1 message response :
  k <> 0 ->
  attempt c opts st = (st1, Throw (GaxiosError message (Some response))) ->
  res_status response = 401%Z ->
  let raised :=
    IntegrationProviderAuthenticationError (Some 401%Z)
      (Some (res_statusText response)) (Some (res_config_url response)) in
  let final :=
    record (EvLog (LogFetchError (Some 401%Z)
                     (Some (res_statusText response))
                     (Some (res_config_url response)))) st1 in
  retry_loop (S fuel) c opts k st = (final, Throw raised)
  /\ (forall st0 st0' err0,
        attempt c opts st0 = (st0', Throw err0) ->
        is_auth_status (err_status err0) = true ->
        st = after_auth_failure c st0' ->
        requestWithRetry c opts st0 = (final, Throw raised)).
Proof.
  intros Hk Ha Hs raised final.
  assert (Hloop : forall f k', k' <> 0 ->
            retry_loop (S f) c opts k' st = (final, Throw raised)).
  { intros f k' Hk'. eapply retry_loop_raise; [exact Ha|].
    rewrite on_error_gaxios.
    - unfold fetch_error_logged, err_status. simpl. rewrite Hs. reflexivity.
    - unfold err_status. simpl. rewrite Hs. discriminate.
    - destruct k'; [done|]. apply andb_false_r. }
  split; [by apply Hloop|].
  intros st0 st0' err0 Ha0 Hauth ->.
  rewrite requestWithRetry_rounds.
  rewrite (retry_loop_continue _ _ _ _ _ _ _ _ Ha0
             (on_error_auth_first _ _ _ Hauth)).
  change (1 <? MAX_RETRIES)%nat with true. by apply Hloop.
Qed.


(** Without a token the first request of an attempt is the token
    exchange, issued from the state the attempt starts in. *)
Lemma attempt_exchange_first c opts st :
  Authorization c st = "" ->
  exists out rest,
    trace (fst (attempt c opts st))
    = (trace st
         ++ EvRequest (resolve (heap st) (token_options c)) out :: rest)%list.
Proof.
  intros He.
  destruct (server (trace st) (resolve (heap st) (token_options c)))
    as [r|e] eqn:Hs; unfold Umbrella.attempt, bind.
  - rewrite (getToken_exchange _ _ _ He Hs).
    destruct (request_trace opts (token_stored c r st)) as [ev Hev].
    destruct (request opts _) as [st2 res]. simpl in Hev.
    exists (Resolved r), [ev].
    destruct res; simpl; rewrite Hev, <- app_assoc; reflexivity.
  - rewrite (getToken_rejected _ _ _ He Hs). by exists (Rejected e), [].
Qed.

(** C7: absorbing a 429 leaves the shared headers object as it was: the
    catch block only logs, sleeps and counts, so the Authorization slot has
    the same value when the retried attempt starts.  When a token is held
    the retried attempt issues its request at once, without any token
    exchange; when none is held (the 429 answered the token exchange) the
    retried attempt issues the exchange again, the slot still empty. *)
Theorem rate_limit_keeps_token c opts k st st1 err :
  attempt c opts st = (st1, Throw err) ->
  err_status err = Some 429%Z ->
  let st1' := after_rate_limit err st1 in
  on_error c err k st1 = (st1', Ret (S k))
  /\ heap st1' = heap st1
  /\ Authorization c st1' = Authorization c st1
  /\ (forall fuel, (S k < MAX_RETRIES)%nat ->
        retry_loop (S (S fuel)) c opts k st
        = retry_loop (S fuel) c opts (S k) st1')
  /\ (Authorization c st1 <> "" ->
        attempt c opts st1' = request opts st1'
        /\ resolve (heap st1') opts = resolve (heap st1) opts)
  /\ (Authorization c st1 = "" ->
        exists out rest,
          trace (fst (attempt c opts st1'))
          = (trace st1'
               ++ EvRequest (resolve (heap st1) (token_options c)) out
                  :: rest)%list).
Proof.
  intros Ha Hs st1'.
  split; [by apply on_error_rate_limit|].
  split; [reflexivity|]. split; [reflexivity|]. split; [|split].
  - intros fuel Hk.
    rewrite (retry_loop_continue _ _ _ _ _ _ _ _ Ha
               (on_error_rate_limit c _ k _ Hs)).
    apply Nat.ltb_lt in Hk. by rewrite Hk.
  - intros Hheld. split; [|reflexivity]. by apply attempt_held.
  - intros Hempty. by apply (attempt_exchange_first c opts st1').
Qed.

(** ** The pagination loop *)

Lemma do_while_step fuel body (v v' : LoopVars) st st1 :
  body v st = (st1, Ret v') ->
  do_while (S fuel) body v st
  = if negb (done v') && (receivedCount v' =? PAGE_SIZE)%nat
    then do_while fuel body v' st1
    else (st1, Ret tt).
Proof.
  intros Hb. cbn [Umbrella.do_while]. unfold bind at 1. rewrite Hb.
  by destruct (negb (done v') && (receivedCount v' =? PAGE_SIZE)%nat).
Qed.

Lemma do_while_raise fuel body (v : LoopVars) st st1 e :
  body v st = (st1, Throw e) ->
  do_while (S fuel) body v st = (st1, Throw e).
Proof.
  intros Hb. cbn [Umbrella.do_while]. unfold bind at 1. by rewrite Hb.
Qed.

Lemma requestIterator_body_no_response c requestUrl iteratee v st st1 :
  requestWithRetry c (page_options c requestUrl (page v)) st
  = (st1, Ret None) ->
  requestIterator_body c requestUrl iteratee v st = (st1, Ret (stopped v)).
Proof.
  intros Hr. unfold Umbrella.requestIterator_body, bind at 1.
  by rewrite Hr.
Qed.

Lemma requestIterator_body_empty c requestUrl iteratee v st st1 r :
  requestWithRetry c (page_options c requestUrl (page v)) st
  = (st1, Ret (Some r)) ->
  res_data r = BArray [] ->
  requestIterator_body c requestUrl iteratee v st = (st1, Ret (stopped v)).
Proof.
  intros Hr Hd. unfold Umbrella.requestIterator_body, bind at 1.
  rewrite Hr. destruct r; simpl in Hd; by subst.
Qed.

Lemma requestIterator_body_items c requestUrl iteratee v st st1 r items :
  requestWithRetry c (page_options c requestUrl (page v)) st
  = (st1, Ret (Some r)) ->
  res_data r = BArray items -> items <> [] ->
  requestIterator_body c requestUrl iteratee v st
  = (for_each items iteratee ;; ret (advanced v items)) st1.
Proof.
  intros Hr Hd Hne. unfold Umbrella.requestIterator_body, bind at 1.
  rewrite Hr. destruct r; simpl in Hd; subst.
  by destruct items.
Qed.

Lemma nested_body_no_response c requestUrl iteratee v st st1 :
  requestWithRetry c (page_options c requestUrl (page v)) st
  = (st1, Ret None) ->
  requestIteratorWithNestedData_body c requestUrl iteratee v st
  = (st1, Ret (stopped v)).
Proof.
  intros Hr. unfold Umbrella.requestIteratorWithNestedData_body, bind at 1.
  by rewrite Hr.
Qed.

Lemma nested_body_items c requestUrl iteratee v st st1 r items :
  requestWithRetry c (page_options c requestUrl (page v)) st
  = (st1, Ret (Some r)) ->
  res_data r = BMeta (Some items) ->
  requestIteratorWithNestedData_body c requestUrl iteratee v st
  = (for_each items iteratee ;; ret (advanced v items)) st1.
Proof.
  intros Hr Hd. unfold Umbrella.requestIteratorWithNestedData_body.
  unfold bind at 1. rewrite Hr. destruct r; simpl in Hd; by subst.
Qed.

Lemma nested_body_no_data c requestUrl iteratee v st st1 r :
  requestWithRetry c (page_options c requestUrl (page v)) st
  = (st1, Ret (Some r)) ->
  res_data r = BMeta None ->
  requestIteratorWithNestedData_body c requestUrl iteratee v st
  = (st1, Ret (stopped v)).
Proof.
  intros Hr Hd. unfold Umbrella.requestIteratorWithNestedData_body.
  unfold bind at 1. rewrite Hr. destruct r; simpl in Hd; by subst.
Qed.

(** Three 429 in a row use up the retries. *)
Lemma three_rate_limits c opts st st1 e1 st2 e2 st3 e3 :
  attempt c opts st = (st1, Throw e1) ->
  err_status e1 = Some 429%Z ->
  attempt c opts (after_rate_limit e1 st1) = (st2, Throw e2) ->
  err_status e2 = Some 429%Z ->
  attempt c opts (after_rate_limit e2 st2) = (st3, Throw e3) ->
  err_status e3 = Some 429%Z ->
  requestWithRetry c opts st = (after_rate_limit e3 st3, Ret None).
Proof.
  intros Ha1 Hs1 Ha2 Hs2 Ha3 Hs3. rewrite requestWithRetry_rounds.
  rewrite (retry_loop_continue _ _ _ _ _ _ _ _ Ha1
             (on_error_rate_limit c _ _ _ Hs1)).
  change (1 <? MAX_RETRIES)%nat with true. cbv iota.
  rewrite (retry_loop_continue _ _ _ _ _ _ _ _ Ha2
             (on_error_rate_limit c _ _ _ Hs2)).
  change (2 <? MAX_RETRIES)%nat with true. cbv iota.
  rewrite (retry_loop_continue _ _ _ _ _ _ _ _ Ha3
             (on_error_rate_limit c _ _ _ Hs3)).
  reflexivity.
Qed.

(** C2: three 429 in a row on one request make requestWithRetry return no
    response instead of raising; an iterator whose page request ends this
    way stops, at any page, without raising and without another request,
    exactly as it does after a page request that returned an empty page. *)
Theorem exhausted_retries_end_pagination c opts st st1 e1 st2 e2 st3 e3 :
  attempt c opts st = (st1, Throw e1) ->
  err_status e1 = Some 429%Z ->
  attempt c opts (after_rate_limit e1 st1) = (st2, Throw e2) ->
  err_status e2 = Some 429%Z ->
  attempt c opts (after_rate_limit e2 st2) = (st3, Throw e3) ->
  err_status e3 = Some 429%Z ->
  let final := after_rate_limit e3 st3 in
  requestWithRetry c opts st = (final, Ret None)
  /\ (forall fuel requestUrl iteratee v,
        opts = page_options c requestUrl (page v) ->
        do_while (S fuel) (requestIterator_body c requestUrl iteratee) v st
        = (final, Ret tt)
        /\ do_while (S fuel)
             (requestIteratorWithNestedData_body c requestUrl iteratee) v st
           = (final, Ret tt))
  /\ (forall fuel requestUrl iteratee,
        opts = page_options c requestUrl 1 ->
        requestIterator (S fuel) c requestUrl iteratee st = (final, Ret tt)
        /\ requestIteratorWithNestedData (S fuel) c requestUrl iteratee st
           = (final, Ret tt))
  /\ (forall fuel requestUrl iteratee v s s' r,
        requestWithRetry c (page_options c requestUrl (page v)) s
        = (s', Ret (Some r)) ->
        (res_data r = BArray [] ->
         do_while (S fuel) (requestIterator_body c requestUrl iteratee) v s
         = (s', Ret tt))
        /\ (res_data r = BMeta (Some []) \/ res_data r = BMeta None ->
            do_while (S fuel)
              (requestIteratorWithNestedData_body c requestUrl iteratee) v s
            = (s', Ret tt))).
Proof.
  intros Ha1 Hs1 Ha2 Hs2 Ha3 Hs3 final.
  pose proof (three_rate_limits _ _ _ _ _ _ _ _ _ Ha1 Hs1 Ha2 Hs2 Ha3 Hs3)
    as Hnone.
  assert (Hany : forall fuel requestUrl iteratee v,
            opts = page_options c requestUrl (page v) ->
            do_while (S fuel) (requestIterator_body c requestUrl iteratee) v st
            = (final, Ret tt)
            /\ do_while (S fuel)
                 (requestIteratorWithNestedData_body c requestUrl iteratee)
                 v st
               = (final, Ret tt)).
  { intros fuel requestUrl iteratee v ->. split.
    - by rewrite (do_while_step _ _ _ _ _ _
                    (requestIterator_body_no_response _ _ _ _ _ _ Hnone)).
    - by rewrite (do_while_step _ _ _ _ _ _
                    (nested_body_no_response _ _ _ _ _ _ Hnone)). }
  split; [exact Hnone|]. split; [exact Hany|]. split.
  { intros fuel requestUrl iteratee Ho.
    apply (Hany fuel requestUrl iteratee initial_vars Ho). }
  intros fuel requestUrl iteratee v s s' r Hr. split.
  - intros Hd.
    by rewrite (do_while_step _ _ _ _ _ _
                  (requestIterator_body_empty _ _ _ _ _ _ _ Hr Hd)).
  - intros [Hd|Hd].
    + rewrite (do_while_step _ _ _ (advanced v (@nil T)) _ s').
      * simpl. by rewrite andb_false_r.
      * by rewrite (nested_body_items _ _ _ _ _ _ _ _ Hr Hd).
    + by rewrite (do_while_step _ _ _ _ _ _
                    (nested_body_no_data _ _ _ _ _ _ _ Hr Hd)).
Qed.

(** ** Errors raised *)

(** A failed attempt ends with the rejected request. *)
Lemma attempt_throw_last c opts st st1 err :
  attempt c opts st = (st1, Throw err) ->
  exists tr req, trace st1 = (tr ++ [EvRequest req (Rejected err)])%list.
Proof.
  assert (Hreq : forall o s s1,
    request o s = (s1, Throw err) ->
    exists tr req, trace s1 = (tr ++ [EvRequest req (Rejected err)])%list).
  { intros o s s1. unfold Umbrella.request.
    destruct (server _ _) eqn:Hs; intros [= <- <-]. rewrite trace_record.
    eauto. }
  destruct (decide (Authorization c st = "")) as [He|Hh].
  - destruct (server (trace st) (resolve (heap st) (token_options c)))
      as [r|e] eqn:Hs; unfold Umbrella.attempt, bind.
    + rewrite (getToken_exchange _ _ _ He Hs). apply Hreq.
    + rewrite (getToken_rejected _ _ _ He Hs). intros [= <- <-].
      rewrite trace_record. eauto.
  - rewrite attempt_held by done. apply Hreq.
Qed.

(** Whatever the loop raises was raised by the catch block on a failed
    attempt. *)
Lemma retry_loop_throw fuel c opts k st st' e :
  retry_loop fuel c opts k st = (st', Throw e) ->
  exists st0 st1 err k',
    attempt c opts st0 = (st1, Throw err)
    /\ on_error c err k' st1 = (st', Throw e).
Proof.
  revert k st. induction fuel as [|fuel IH]; intros k st; [discriminate|].
  destruct (attempt_result c opts st) as [(st1 & r & Ha)|(st1 & err & Ha)].
  { rewrite (retry_loop_return _ _ _ _ _ _ _ Ha). discriminate. }
  destruct (on_error_result c err k st1) as [(st2 & Hh)|(st2 & e' & Hh)].
  - rewrite (retry_loop_continue _ _ _ _ _ _ _ _ Ha Hh).
    destruct (S k <? MAX_RETRIES)%nat; [apply IH|discriminate].
  - rewrite (retry_loop_raise _ _ _ _ _ _ _ _ _ Ha Hh).
    intros [= <- <-]. eauto 10.
Qed.

(** What the catch block raises, by the shape of the failure. *)
Lemma on_error_throw c err k st st' e :
  on_error c err k st = (st', Throw e) ->
  wraps e err
  /\ (st' = st \/ exists entry, st' = record (EvLog entry) st).
Proof.
  destruct (decide (err_status err = Some 429%Z)) as [Hs|Hs].
  { by rewrite on_error_rate_limit. }
  destruct (is_auth_status (err_status err) && (k =? 0)%nat) eqn:Ha.
  { apply andb_true_iff in Ha as [Ha Hk]. apply Nat.eqb_eq in Hk as ->.
    by rewrite on_error_auth_first. }
  destruct err as [message [r|]|name message].
  - rewrite on_error_gaxios by done. intros [= <- <-].
    split; [|right; eexists; reflexivity].
    unfold err_status. simpl.
    split; [|split; [|split; [|split; [done|done]]]].
    + by intros m r' [= _ <-] ->.
    + by intros m r' [= _ <-] ->.
    + intros m r' [= _ <-] H401 H403.
      destruct (res_status r) as [|p|p]; try done.
      repeat (destruct p as [p|p|]; try done).
  - rewrite on_error_gaxios by done. intros [= <- <-].
    split; [|right; eexists; reflexivity].
    by repeat split.
  - rewrite on_error_other. intros [= <- <-]. split; [|by left].
    repeat split; try done. by intros ? ? [= <- <-].
Qed.

(** C4 (amended): when the first attempt of requestWithRetry fails with
    status 401 or 403 (the counter is 0), the token slot is cleared, the
    counter goes to 1 and the loop goes on; the next round starts with
    exactly one token exchange, the POST of the basic credentials to the
    token endpoint.  When the exchange is granted the retried request
    follows it at once, with the new token stored, and when that request
    succeeds its response is returned.  When the exchange is rejected the
    retried request is not issued in that round: on a 429 the loop goes on
    and issues the exchange once more, on any other failure the routine
    raises the error that wraps it. *)
Theorem first_auth_failure_refreshes c opts st st1 err :
  attempt c opts st = (st1, Throw err) ->
  is_auth_status (err_status err) = true ->
  let cleared := after_auth_failure c st1 in
  let exchange :=
    {| req_url := "https://api.umbrella.com/auth/v2/token";
       req_method := "POST";
       req_headers :=
         {[ "Authorization" :=
              "Basic " ++ base64 (clientId (config c) ++ ":"
                                  ++ clientSecret (config c)) ]};
       req_data := Some {| token_type := "bearer"; expires_in := 3600 |} |} in
  let answer := server (trace cleared) exchange in
  (Authorization c cleared = ""
   /\ trace cleared = (trace st1 ++ [EvLog LogAuthRefresh])%list
   /\ on_error c err 0 st1 = (cleared, Ret 1)
   /\ requestWithRetry c opts st = retry_loop 2 c opts 1 cleared)
  /\ (is_token_post exchange = true
      /\ exists rest,
           trace (fst (attempt c opts cleared))
           = (trace cleared ++ EvRequest exchange answer :: rest)%list
           /\ length rest <= 1)
  /\ (forall tr, answer = Resolved tr ->
        let renewed := token_stored c tr cleared in
        let retried := resolve (heap renewed) opts in
        Authorization c renewed = "Bearer " ++ access_token_of (res_data tr)
        /\ attempt c opts cleared = request opts renewed
        /\ trace (fst (attempt c opts cleared))
           = (trace st1
                ++ [EvLog LogAuthRefresh;
                    EvRequest exchange (Resolved tr);
                    EvRequest retried (server (trace renewed) retried)])%list
        /\ forall r, server (trace renewed) retried = Resolved r ->
             let final := record (EvRequest retried (Resolved r)) renewed in
             requestWithRetry c opts st = (final, Ret (Some r))
             /\ trace final
                = (trace st1
                     ++ [EvLog LogAuthRefresh;
                         EvRequest exchange (Resolved tr);
                         EvRequest retried (Resolved r)])%list
             /\ Authorization c final
                = "Bearer " ++ access_token_of (res_data tr))
  /\ (forall e, answer = Rejected e ->
        let refused := record (EvRequest exchange (Rejected e)) cleared in
        attempt c opts cleared = (refused, Throw e)
        /\ Authorization c refused = ""
        /\ (err_status e = Some 429%Z ->
            requestWithRetry c opts st
            = retry_loop 1 c opts 2 (after_rate_limit e refused)
            /\ exists out rest,
                 trace (fst (attempt c opts (after_rate_limit e refused)))
                 = (trace (after_rate_limit e refused)
                      ++ EvRequest exchange out :: rest)%list)
        /\ (err_status e <> Some 429%Z ->
            exists st' e',
              requestWithRetry c opts st = (st', Throw e') /\ wraps e' e)).
Proof.
  intros Ha Hauth cleared exchange answer. subst answer.
  assert (Hex : forall h, resolve h (token_options c) = exchange)
    by reflexivity.
  assert (Hcleared : Authorization c cleared = "")
    by apply Authorization_store.
  assert (Hloop : requestWithRetry c opts st = retry_loop 2 c opts 1 cleared).
  { rewrite requestWithRetry_rounds.
    by rewrite (retry_loop_continue _ _ _ _ _ _ _ _ Ha
                  (on_error_auth_first _ _ _ Hauth)). }
  assert (Hgranted : forall tr,
            server (trace cleared) exchange = Resolved tr ->
            attempt c opts cleared = request opts (token_stored c tr cleared)).
  { intros tr Htok. unfold Umbrella.attempt, bind.
    by rewrite (getToken_exchange _ _ _ Hcleared Htok). }
  assert (Hrefused : forall e,
            server (trace cleared) exchange = Rejected e ->
            attempt c opts cleared
            = (record (EvRequest exchange (Rejected e)) cleared, Throw e)).
  { intros e Htok. unfold Umbrella.attempt, bind.
    by rewrite (getToken_rejected _ _ _ Hcleared Htok). }
  assert (Hreq : forall s,
            trace (fst (request opts s))
            = (trace s ++ [EvRequest (resolve (heap s) opts)
                             (server (trace s) (resolve (heap s) opts))])%list).
  { intros s. unfold Umbrella.request. cbv zeta.
    by destruct (server (trace s) (resolve (heap s) opts)). }
  assert (Hrenewed : forall tr,
            trace (token_stored c tr cleared)
            = (trace st1 ++ [EvLog LogAuthRefresh;
                             EvRequest exchange (Resolved tr)])%list).
  { intros tr. unfold token_stored, cleared, after_auth_failure.
    rewrite trace_store, trace_record, trace_store, trace_record,
      <- app_assoc.
    reflexivity. }
  split; [|split; [|split]].
  - split; [exact Hcleared|]. split.
    { unfold cleared, after_auth_failure.
      by rewrite trace_store, trace_record. }
    split; [by apply on_error_auth_first|exact Hloop].
  - split; [reflexivity|].
    destruct (server (trace cleared) exchange) as [tr|e] eqn:Htok.
    + exists [EvRequest (resolve (heap (token_stored c tr cleared)) opts)
                (server (trace (token_stored c tr cleared))
                   (resolve (heap (token_stored c tr cleared)) opts))].
      split; [|simpl; lia].
      rewrite (Hgranted tr eq_refl), Hreq.
      unfold token_stored at 1. rewrite trace_store, trace_record, Hex.
      by rewrite <- app_assoc.
    + exists []. split; [|simpl; lia].
      rewrite (Hrefused e eq_refl). cbn [fst]. by rewrite trace_record.
  - intros tr Htok renewed retried.
    split; [apply Authorization_store|].
    split; [by apply Hgranted|]. split.
    { rewrite (Hgranted tr Htok), Hreq. fold renewed. fold retried.
      unfold renewed. rewrite Hrenewed, <- app_assoc. reflexivity. }
    intros r Hr final. split; [|split].
    + rewrite Hloop. apply retry_loop_return.
      rewrite (Hgranted tr Htok). by apply request_resolved.
    + unfold final. rewrite trace_record. unfold renewed.
      rewrite Hrenewed, <- app_assoc. reflexivity.
    + unfold final. rewrite Authorization_record.
      apply Authorization_store.
  - intros e Htok refused.
    assert (Hempty : Authorization c refused = "").
    { unfold refused. by rewrite Authorization_record. }
    split; [by apply Hrefused|]. split; [exact Hempty|]. split.
    + intros Hs. split.
      * rewrite Hloop.
        by rewrite (retry_loop_continue _ _ _ _ _ _ _ _ (Hrefused e Htok)
                      (on_error_rate_limit c _ 1 _ Hs)).
      * apply (attempt_exchange_first c opts (after_rate_limit e refused)).
        unfold after_rate_limit. by rewrite !Authorization_record.
    + intros Hs. rewrite Hloop.
      destruct (on_error_result c e 1 refused)
        as [(s2 & Hh)|(s2 & e' & Hh)].
      * exfalso. destruct e as [message response|name message].
        -- rewrite on_error_gaxios in Hh; [discriminate|done|].
           apply andb_false_r.
        -- rewrite on_error_other in Hh. discriminate.
      * exists s2, e'. split.
        -- by apply (retry_loop_raise _ _ _ _ _ _ _ _ _ (Hrefused e Htok) Hh).
        -- by apply on_error_throw in Hh as [Hw _].
Qed.

(** C9 (amended): an error raised by requestWithRetry wraps the failure of
    the last request issued: a GaxiosError with a 401 response gives the
    authentication error, with a 403 response the authorization error, with
    any other response the provider API error, each carrying the status,
    statusText and config url of that response; a GaxiosError without
    response (a failure below HTTP that gaxios reports) gives the provider
    API error with no status, statusText or endpoint; only an error that is
    not a GaxiosError gives the generic error carrying its message and
    name.  And a failure that the catch block does not absorb (not a 429,
    and not a first 401 or 403) is raised, classified the same way. *)
Theorem fatal_errors_classified c opts st st' e :
  requestWithRetry c opts st = (st', Throw e) ->
  (exists tr req err logged,
      trace st' = (tr ++ EvRequest req (Rejected err) :: logged)%list
      /\ (logged = [] \/ exists entry, logged = [EvLog entry])
      /\ wraps e err)
  /\ (forall fuel k s s1 err,
        attempt c opts s = (s1, Throw err) ->
        err_status err <> Some 429%Z ->
        is_auth_status (err_status err) && (k =? 0)%nat = false ->
        exists s2 e',
          retry_loop (S fuel) c opts k s = (s2, Throw e') /\ wraps e' err).
Proof.
  intros Hrun. split.
  - apply retry_loop_throw in Hrun as (st0 & st1 & err & k' & Ha & Hh).
    apply attempt_throw_last in Ha as (tr & req & Htr).
    apply on_error_throw in Hh as [Hw [->|[entry ->]]].
    + exists tr, req, err, []. split; [done|]. split; [by left|done].
    + exists tr, req, err, [EvLog entry]. split.
      { rewrite trace_record, Htr, <- app_assoc. reflexivity. }
      split; [right; eauto|done].
  - intros fuel k s s1 err Ha Hs Hauth.
    destruct (on_error_result c err k s1) as [(s2 & Hh)|(s2 & e' & Hh)].
    + exfalso. destruct err as [message response|name message].
      * rewrite on_error_gaxios in Hh by done. discriminate.
      * rewrite on_error_other in Hh. discriminate.
    + exists s2, e'. split.
      * by apply (retry_loop_raise _ _ _ _ _ _ _ _ _ Ha Hh).
      * by apply on_error_throw in Hh as [Hw _].
Qed.

(** ** Verification of the credentials *)

(** C10 (amended): verifyAuthentication returns normally exactly when
    requestWithRetry does not throw, whether it yields a response or none:
    a provider that answers 429 three times in a row is reported as
    verified.  A provider that cannot be reached is not: a failure without
    response is not absorbed by the retry loop and is raised, as the
    generic error when it is not a GaxiosError and as the provider API
    error without status when it is one. *)
Theorem verifyAuthentication_outcome c st :
  (forall st' response,
     requestWithRetry c (verify_options c) st = (st', Ret response) ->
     verifyAuthentication c st = (st', Ret tt))
  /\ (forall st' e,
        requestWithRetry c (verify_options c) st = (st', Throw e) ->
        verifyAuthentication c st = (st', Throw e))
  /\ snd (verifyAuthentication c st) <> OutOfFuel
  /\ (forall st1 e1 st2 e2 st3 e3,
        attempt c (verify_options c) st = (st1, Throw e1) ->
        err_status e1 = Some 429%Z ->
        attempt c (verify_options c) (after_rate_limit e1 st1)
        = (st2, Throw e2) ->
        err_status e2 = Some 429%Z ->
        attempt c (verify_options c) (after_rate_limit e2 st2)
        = (st3, Throw e3) ->
        err_status e3 = Some 429%Z ->
        verifyAuthentication c st = (after_rate_limit e3 st3, Ret tt))
  /\ (forall st1 name message,
        attempt c (verify_options c) st
        = (st1, Throw (OtherError name message)) ->
        verifyAuthentication c st
        = (st1, Throw (IntegrationError message name)))
  /\ (forall st1 message,
        attempt c (verify_options c) st
        = (st1, Throw (GaxiosError message None)) ->
        verifyAuthentication c st
        = (fetch_error_logged (GaxiosError message None) st1,
           Throw (IntegrationProviderAPIError None None None)))
  /\ (forall st1 err,
        attempt c (verify_options c) st = (st1, Throw err) ->
        err_response err = None ->
        exists st' e,
          verifyAuthentication c st = (st', Throw e) /\ wraps e err).
Proof.
  assert (Hret : forall st' response,
            requestWithRetry c (verify_options c) st = (st', Ret response) ->
            verifyAuthentication c st = (st', Ret tt)).
  { intros st' response Hr. unfold Umbrella.verifyAuthentication, bind.
    rewrite Hr. by destruct response. }
  assert (Hthrow : forall st' e,
            requestWithRetry c (verify_options c) st = (st', Throw e) ->
            verifyAuthentication c st = (st', Throw e)).
  { intros st' e Hr. unfold Umbrella.verifyAuthentication, bind.
    by rewrite Hr. }
  assert (Hother : forall st1 name message,
            attempt c (verify_options c) st
            = (st1, Throw (OtherError name message)) ->
            verifyAuthentication c st
            = (st1, Throw (IntegrationError message name))).
  { intros st1 name message Ha. apply Hthrow.
    rewrite requestWithRetry_rounds.
    eapply retry_loop_raise; [exact Ha|]. apply on_error_other. }
  assert (Hgaxios : forall st1 message,
            attempt c (verify_options c) st
            = (st1, Throw (GaxiosError message None)) ->
            verifyAuthentication c st
            = (fetch_error_logged (GaxiosError message None) st1,
               Throw (IntegrationProviderAPIError None None None))).
  { intros st1 message Ha. apply Hthrow.
    rewrite requestWithRetry_rounds.
    eapply retry_loop_raise; [exact Ha|]. by rewrite on_error_gaxios. }
  split; [exact Hret|]. split; [exact Hthrow|].
  split; [|split; [|split; [exact Hother|split; [exact Hgaxios|]]]].
  - pose proof (requestWithRetry_total c (verify_options c) st) as Htot.
    destruct (requestWithRetry c (verify_options c) st) as [st' [x|e|]] eqn:Hr.
    + by rewrite (Hret _ _ eq_refl).
    + by rewrite (Hthrow _ _ eq_refl).
    + done.
  - intros st1 e1 st2 e2 st3 e3 Ha1 Hs1 Ha2 Hs2 Ha3 Hs3.
    apply (Hret _ None). by eapply three_rate_limits.
  - intros st1 err Ha Hnone.
    destruct err as [message response|name message]; simpl in Hnone.
    + subst response. do 2 eexists. split; [by apply Hgaxios|].
      by repeat split.
    + do 2 eexists. split; [by apply Hother|].
      repeat split; try done. by intros ? ? [= <- <-].
Qed.

(** ** The token on the wire *)

Lemma getToken_slot c st st1 tok :
  getToken c st = (st1, Ret tok) ->
  heap_get (heap st1) (headers c) !! "Authorization" = Some tok
  /\ (forall l, l <> headers c -> heap_get (heap st1) l = heap_get (heap st) l).
Proof.
  destruct (decide (Authorization c st = "")) as [He|Hh].
  - destruct (server (trace st) (resolve (heap st) (token_options c)))
      as [r|e] eqn:Hs.
    + rewrite (getToken_exchange _ _ _ He Hs). intros [= <- <-]. split.
      * unfold token_stored, store_Authorization, heap_get. simpl.
        rewrite lookup_insert_eq. simpl. by rewrite lookup_insert_eq.
      * intros l Hl. unfold token_stored, store_Authorization, heap_get.
        simpl. by rewrite lookup_insert_ne.
    + by rewrite (getToken_rejected _ _ _ He Hs).
  - rewrite getToken_held by done. intros [= <- <-]. split; [|done].
    unfold Authorization in *.
    by destruct (heap_get (heap st) (headers c) !! "Authorization").
Qed.

(** C3 (amended): before each HTTP attempt requestWithRetry obtains the
    bearer token from getToken, which keeps it in the client's own headers
    object.  The request is then sent with the headers its options refer
    to: when they refer to the client's headers object, as in every request
    the client builds itself, the request carries the token just obtained,
    also after a refresh; a request spec with a headers object of its own is
    sent with that object as it is. *)
Theorem shared_headers_carry_token c opts st st1 tok :
  getToken c st = (st1, Ret tok) ->
  attempt c opts st = request opts st1
  /\ (exists out,
        fst (attempt c opts st)
        = record (EvRequest (resolve (heap st1) opts) out) st1)
  /\ (opt_headers opts = SharedObject (headers c) ->
        req_headers (resolve (heap st1) opts) !! "Authorization" = Some tok)
  /\ (forall tr,
        Authorization c st = "" ->
        server (trace st) (resolve (heap st) (token_options c))
        = Resolved tr ->
        tok = "Bearer " ++ access_token_of (res_data tr))
  /\ (forall h,
        opt_headers opts = ObjectLiteral h ->
        req_headers (resolve (heap st1) opts) = h)
  /\ (forall l,
        opt_headers opts = SharedObject l -> l <> headers c ->
        req_headers (resolve (heap st1) opts) = heap_get (heap st) l).
Proof.
  intros Hg. pose proof (getToken_slot _ _ _ _ Hg) as [Hslot Hframe].
  assert (Hatt : attempt c opts st = request opts st1).
  { unfold Umbrella.attempt, bind. by rewrite Hg. }
  split; [exact Hatt|]. split; [|split; [|split; [|split]]].
  - rewrite Hatt. unfold Umbrella.request.
    destruct (server _ _) as [r|e]; eexists; reflexivity.
  - intros Ho. unfold resolve. by rewrite Ho.
  - intros tr He Hs. rewrite (getToken_exchange _ _ _ He Hs) in Hg.
    by injection Hg as _ <-.
  - intros h Ho. unfold resolve. by rewrite Ho.
  - intros l Ho Hl. unfold resolve. rewrite Ho. simpl. by apply Hframe.
Qed.

End Properties.

(** ** Pagination over a provider that holds pages *)

Section Pagination.

Context {T : Type}.
Variable base64 : string -> string.
Variable token : string.
Variable envelope : list T -> Body T.
Variable pages : list (list T).
Variable c : APIClient.
Variable requestUrl : string.

Local Abbreviation provider := (paged_provider token envelope pages).
Local Abbreviation with_token := (with_token base64 c token).
Local Abbreviation iterated := (iterated base64 token envelope c requestUrl).
Local Abbreviation after_round :=
  (after_round base64 token envelope c requestUrl).
Local Abbreviation round_ok :=
  (round_ok base64 token envelope c requestUrl pages).

Implicit Types (st : State T) (v : LoopVars).

Lemma listings_app (tr1 tr2 : list (Event T)) :
  listings (tr1 ++ tr2) = listings tr1 + listings tr2.
Proof. induction tr1 as [|ev tr1 IH]; simpl; [done|]. rewrite IH. lia. Qed.

Lemma listings_callbacks (items : list T) :
  listings (map EvCallback items) = 0.
Proof. by induction items. Qed.

Lemma for_each_record_item (items : list T) st :
  for_each items record_item st
  = ({| heap := heap st; trace := trace st ++ map EvCallback items |}, Ret tt).
Proof.
  revert st. induction items as [|item items IH]; intros st; simpl.
  - unfold ret. rewrite app_nil_r. by destruct st.
  - unfold bind, record_item, emit. rewrite IH. simpl.
    by rewrite <- app_assoc.
Qed.

Lemma with_token_held st : Authorization c (with_token st) <> "".
Proof.
  unfold Umbrella.with_token.
  destruct (truthy (Authorization c st)) eqn:Hh.
  - by apply truthy_true.
  - unfold token_stored. by rewrite Authorization_store.
Qed.

Lemma with_token_id st : Authorization c st <> "" -> with_token st = st.
Proof.
  intros Hh. apply truthy_true in Hh. unfold Umbrella.with_token.
  by rewrite Hh.
Qed.

Lemma token_stored_listings (r : GaxiosResponse T) st :
  listings (trace (token_stored base64 c r st)) = listings (trace st).
Proof.
  unfold token_stored. rewrite trace_store, trace_record, listings_app.
  simpl. lia.
Qed.

Lemma with_token_listings st :
  listings (trace (with_token st)) = listings (trace st).
Proof.
  unfold Umbrella.with_token. destruct (truthy (Authorization c st)); [done|].
  apply token_stored_listings.
Qed.

(** Against this provider every page request succeeds at the first attempt,
    after the token exchange when no token is held. *)
Lemma requestWithRetry_paged n st :
  let opts := page_options c requestUrl n in
  let response :=
    ok_response (opt_url opts) (envelope (nth (listings (trace st)) pages []))
  in
  requestWithRetry provider base64 c opts st
  = (record (EvRequest (resolve (heap (with_token st)) opts)
               (Resolved response)) (with_token st),
     Ret (Some response)).
Proof.
  intros opts response. rewrite requestWithRetry_rounds.
  apply retry_loop_return. unfold Umbrella.with_token.
  destruct (truthy (Authorization c st)) eqn:Hh.
  - apply truthy_true in Hh. rewrite attempt_held by done.
    by apply request_resolved.
  - apply truthy_false in Hh. unfold attempt, bind.
    erewrite getToken_exchange; [|done|reflexivity].
    apply request_resolved. unfold paged_provider.
    change (req_method (resolve _ opts) =? "POST") with false. cbv iota.
    by rewrite token_stored_listings.
Qed.

Lemma nth_drop_nil (j : nat) :
  drop j pages = [] -> nth j pages [] = [].
Proof.
  revert j. induction pages as [|p ps IH]; intros [|j]; simpl; try done.
  apply IH.
Qed.

Lemma nth_drop_cons (j : nat) (p : list T) (rest : list (list T)) :
  drop j pages = p :: rest -> nth j pages [] = p /\ drop (S j) pages = rest.
Proof.
  revert j. induction pages as [|q ps IH]; intros [|j]; simpl; try done.
  - intros [= -> ->]. split; [done|]. by rewrite drop_0.
  - apply IH.
Qed.

Lemma after_round_held st n p : Authorization c (after_round st n p) <> "".
Proof. apply with_token_held. Qed.

Lemma after_round_listings st n p :
  listings (trace (after_round st n p)) = S (listings (trace st)).
Proof.
  unfold after_round. simpl. rewrite listings_app, with_token_listings.
  simpl. rewrite listings_callbacks. lia.
Qed.

Lemma do_while_paged body fuel :
  round_ok body ->
  forall v st,
    done v = false ->
    length (drop (listings (trace st)) pages) < fuel ->
    do_while fuel body v st
    = iterated st (page v) (drop (listings (trace st)) pages).
Proof.
  intros Hbody. induction fuel as [|fuel IH]; intros v st Hdone Hfuel; [lia|].
  destruct (Hbody v st Hdone) as (v' & Hround & Hcond & Hnext).
  rewrite (do_while_step _ _ _ _ _ _ Hround), Hcond.
  destruct (drop (listings (trace st)) pages) as [|p rest] eqn:Hd.
  - rewrite (nth_drop_nil _ Hd) in *. reflexivity.
  - apply nth_drop_cons in Hd as [Hp Hrest]. rewrite Hp in *.
    unfold iterated. simpl served.
    destruct (length p =? PAGE_SIZE)%nat eqn:Hfull.
    + destruct (Hnext eq_refl) as [Hdone' Hpage].
      rewrite IH; [|done|rewrite after_round_listings, Hrest; simpl in Hfuel; lia].
      rewrite after_round_listings, Hrest. unfold iterated.
      rewrite with_token_id by apply after_round_held.
      rewrite Hpage. unfold after_round. simpl.
      by rewrite <- app_assoc.
    + unfold after_round. simpl. by rewrite ?app_nil_r.
Qed.

Lemma requestIterator_round :
  (forall items, envelope items = BArray items) ->
  round_ok (requestIterator_body provider base64 c requestUrl record_item).
Proof.
  intros Henv v st Hdone p.
  pose proof (requestWithRetry_paged (page v) st) as Hr. simpl in Hr.
  fold p in Hr. destruct p as [|item p'] eqn:Hp.
  - exists (stopped v). split; [|done].
    erewrite requestIterator_body_empty; [|exact Hr|by rewrite Henv].
    reflexivity.
  - exists (advanced v (item :: p')). split; [|split].
    + erewrite requestIterator_body_items;
        [|exact Hr|by rewrite Henv|done].
      unfold bind. rewrite for_each_record_item. unfold after_round.
      simpl. by rewrite <- app_assoc.
    + simpl. by rewrite Hdone.
    + done.
Qed.

Lemma requestIteratorWithNestedData_round :
  (forall items, envelope items = BMeta (Some items)) ->
  round_ok
    (requestIteratorWithNestedData_body provider base64 c requestUrl
       record_item).
Proof.
  intros Henv v st Hdone p.
  pose proof (requestWithRetry_paged (page v) st) as Hr. simpl in Hr.
  fold p in Hr. exists (advanced v p). split; [|split].
  - erewrite nested_body_items; [|exact Hr|by rewrite Henv].
    unfold bind. rewrite for_each_record_item. unfold after_round.
    simpl. by rewrite <- app_assoc.
  - simpl. by rewrite Hdone.
  - done.
Qed.

Lemma callbacks_app (tr1 tr2 : list (Event T)) :
  callbacks (tr1 ++ tr2) = (callbacks tr1 ++ callbacks tr2)%list.
Proof.
  induction tr1 as [|[req out|entry|ms|item] tr1 IH]; simpl;
    by rewrite ?IH.
Qed.

Lemma callbacks_map (items : list T) :
  callbacks (map EvCallback items) = items.
Proof. induction items as [|item items IH]; simpl; by rewrite ?IH. Qed.

Lemma listing_urls_app (tr1 tr2 : list (Event T)) :
  listing_urls (tr1 ++ tr2) = (listing_urls tr1 ++ listing_urls tr2)%list.
Proof.
  induction tr1 as [|[req out|entry|ms|item] tr1 IH]; simpl; try done.
  destruct (req_method req =? "GET"); simpl; by rewrite IH.
Qed.

Lemma listing_urls_map (items : list T) :
  listing_urls (map EvCallback items) = [].
Proof. by induction items. Qed.

Lemma callbacks_listing_events h n (pgs : list (list T)) :
  callbacks (listing_events h c requestUrl envelope n pgs) = concat pgs.
Proof.
  revert n. induction pgs as [|p pgs IH]; intros n; simpl; [done|].
  by rewrite callbacks_app, callbacks_map, IH.
Qed.

Lemma listing_urls_listing_events h n (pgs : list (list T)) :
  listing_urls (listing_events h c requestUrl envelope n pgs)
  = map (fun k => opt_url (page_options c requestUrl k)) (seq n (length pgs)).
Proof.
  revert n. induction pgs as [|p pgs IH]; intros n; simpl; [done|].
  by rewrite listing_urls_app, listing_urls_map, IH.
Qed.

Lemma with_token_fresh h :
  let st : State T := {| heap := h; trace := [] |} in
  callbacks (trace (with_token st)) = []
  /\ listing_urls (trace (with_token st)) = [].
Proof.
  simpl. unfold Umbrella.with_token.
  by destruct (truthy (Authorization c (@Build_State T h []))).
Qed.

(** What an iteration leaves in the trace of a client that starts with an
    empty one. *)
Lemma iterated_fresh h (rest : list (list T)) :
  let st : State T := {| heap := h; trace := [] |} in
  callbacks (trace (fst (iterated st 1 rest))) = concat (served rest)
  /\ listing_urls (trace (fst (iterated st 1 rest)))
     = map (fun k => opt_url (page_options c requestUrl k))
         (seq 1 (length (served rest))).
Proof.
  intros st. destruct (with_token_fresh h) as [Hc Hu]. fold st in Hc, Hu.
  unfold iterated. simpl. split.
  - by rewrite callbacks_app, Hc, callbacks_listing_events.
  - by rewrite listing_urls_app, Hu, listing_urls_listing_events.
Qed.

Lemma requestIterator_paged fuel h :
  (forall items, envelope items = BArray items) ->
  length pages < fuel ->
  let st : State T := {| heap := h; trace := [] |} in
  requestIterator provider base64 fuel c requestUrl record_item st
  = iterated st 1 pages.
Proof.
  intros Henv Hfuel st. unfold requestIterator.
  by rewrite (do_while_paged _ _ (requestIterator_round Henv)).
Qed.

Lemma requestIteratorWithNestedData_paged fuel h :
  (forall items, envelope items = BMeta (Some items)) ->
  length pages < fuel ->
  let st : State T := {| heap := h; trace := [] |} in
  requestIteratorWithNestedData provider base64 fuel c requestUrl record_item
    st
  = iterated st 1 pages.
Proof.
  intros Henv Hfuel st. unfold requestIteratorWithNestedData.
  by rewrite (do_while_paged _ _ (requestIteratorWithNestedData_round Henv)).
Qed.

Lemma served_full_full_short (p1 p2 p3 : list T) :
  length p1 = 100 -> length p2 = 100 -> length p3 = 47 ->
  served [p1; p2; p3] = [p1; p2; p3].
Proof. intros H1 H2 H3. simpl. by rewrite H1, H2, H3. Qed.

End Pagination.

(** C1: against a provider that holds a sequence of pages, requestIterator
    and requestIteratorWithNestedData request page=1,2,... with limit=100,
    hand every record of a fetched page to the iteratee once, in the order
    of the page, before the next page is requested, and stop after the first
    page that does not hold exactly 100 records (an empty page included).
    For pages of 100, 100 and 47 records the iteratee runs 247 times and the
    three requests page=1, page=2 and page=3 are issued. *)
Theorem iterators_visit_every_record {T : Type} (base64 : string -> string)
    (token : string) (c : APIClient) (requestUrl : string)
    (pages : list (list T)) (fuel : nat) (h : gmap loc HeadersObject) :
  length pages < fuel ->
  let st : State T := {| heap := h; trace := [] |} in
  let nest := fun items : list T => BMeta (Some items) in
  let flat :=
    requestIterator (paged_provider token BArray pages) base64 fuel c
      requestUrl record_item st in
  let nested :=
    requestIteratorWithNestedData (paged_provider token nest pages) base64
      fuel c requestUrl record_item st in
  let url := fun n : nat =>
    BASE_URL ++ requestUrl ++ "?page=" ++ show_nat n ++ "&limit=100" in
  (flat = iterated base64 token BArray c requestUrl st 1 pages
   /\ callbacks (trace (fst flat)) = concat (served pages)
   /\ listing_urls (trace (fst flat))
      = map url (seq 1 (length (served pages))))
  /\ (nested = iterated base64 token nest c requestUrl st 1 pages
      /\ callbacks (trace (fst nested)) = concat (served pages)
      /\ listing_urls (trace (fst nested))
         = map url (seq 1 (length (served pages))))
  /\ (map length pages = [100; 100; 47] ->
      callbacks (trace (fst flat)) = concat pages
      /\ callbacks (trace (fst nested)) = concat pages
      /\ length (concat pages) = 247
      /\ listing_urls (trace (fst flat)) = [url 1; url 2; url 3]
      /\ listing_urls (trace (fst nested)) = [url 1; url 2; url 3]).
Proof.
  intros Hfuel st nest flat nested url.
  assert (Hflat : flat = iterated base64 token BArray c requestUrl st 1 pages)
    by (by apply requestIterator_paged).
  assert (Hnested :
            nested = iterated base64 token nest c requestUrl st 1 pages)
    by (by apply requestIteratorWithNestedData_paged).
  destruct (iterated_fresh base64 token BArray c requestUrl h pages)
    as [Hc1 Hu1].
  destruct (iterated_fresh base64 token nest c requestUrl h pages)
    as [Hc2 Hu2].
  fold st in Hc1, Hu1, Hc2, Hu2. rewrite <- Hflat in Hc1, Hu1.
  rewrite <- Hnested in Hc2, Hu2.
  split; [done|]. split; [done|].
  intros Hsizes.
  destruct pages as [|p1 [|p2 [|p3 [|p4 ps]]]]; try discriminate Hsizes.
  injection Hsizes as H1 H2 H3.
  rewrite (served_full_full_short _ _ _ H1 H2 H3) in *.
  split; [done|]. split; [done|]. split; [|done].
  simpl. rewrite !length_app, H1, H2, H3. reflexivity.
Qed.

(** ** The use of the token endpoint *)

Section TokenDiscipline.

Context {T : Type}.
Variable server : list (Event T) -> HttpRequest -> Outcome T.
Variable base64 : string -> string.
Variable c : APIClient.

Local Abbreviation disciplined := (@disciplined T c).
Local Abbreviation respects := (respects c).
Local Abbreviation request := (request server).
Local Abbreviation getToken := (getToken server base64).
Local Abbreviation attempt := (attempt server base64).
Local Abbreviation retry_loop := (retry_loop server base64).
Local Abbreviation requestWithRetry := (requestWithRetry server base64).

Implicit Types (st : State T) (tr evs : list (Event T)) (held : bool).

Lemma observes_auth_failure_app evs1 evs2 :
  observes_auth_failure (evs1 ++ evs2)%list
  = observes_auth_failure evs1 || observes_auth_failure evs2.
Proof. apply existsb_app. Qed.

Lemma token_discipline_app held evs1 evs2 :
  token_discipline held (evs1 ++ evs2)%list
  = held' ← token_discipline held evs1; token_discipline held' evs2.
Proof.
  revert held. induction evs1 as [|[req out|entry|ms|item] evs1 IH];
    intros held; simpl; try done.
  destruct (is_token_post req); [|done]. by destruct held.
Qed.

Lemma disciplined_refl st : disciplined st st.
Proof. exists []. split; [by rewrite app_nil_r|done]. Qed.

Lemma disciplined_trans st1 st2 st3 :
  disciplined st1 st2 -> disciplined st2 st3 -> disciplined st1 st3.
Proof.
  intros (evs1 & Ht1 & Hd1) (evs2 & Ht2 & Hd2). exists (evs1 ++ evs2)%list.
  split; [by rewrite Ht2, Ht1, app_assoc|].
  rewrite observes_auth_failure_app, token_discipline_app.
  intros [Ho1 Ho2]%orb_false_iff. rewrite (Hd1 Ho1). simpl. by apply Hd2.
Qed.

(** Once a 401 or 403 is in the new part of the trace, nothing is asked of
    what follows. *)
Lemma disciplined_auth_failure st st1 st' evs :
  trace st1 = (trace st ++ evs)%list ->
  observes_auth_failure evs = true ->
  disciplined st1 st' ->
  disciplined st st'.
Proof.
  intros Ht Ho (evs' & Ht' & _). exists (evs ++ evs')%list.
  split; [by rewrite Ht', Ht, app_assoc|].
  by rewrite observes_auth_failure_app, Ho.
Qed.

Lemma disciplined_record (ev : Event T) st :
  (forall req out, ev <> EvRequest req out) ->
  disciplined st (record ev st).
Proof.
  intros Hev. exists [ev]. split; [done|]. intros _.
  rewrite Authorization_record. destruct ev; try done. by destruct (Hev req out).
Qed.

Lemma disciplined_request opts st :
  (forall h, is_token_post (resolve h opts) = false) ->
  disciplined st (fst (request opts st)).
Proof.
  intros Hopts. unfold Umbrella.request.
  exists [EvRequest (resolve (heap st) opts)
            (server (trace st) (resolve (heap st) opts))].
  split; [by destruct (server _ _)|]. intros _. simpl.
  rewrite Hopts. by destruct (server _ _).
Qed.

Lemma token_options_post h :
  is_token_post (resolve h (token_options base64 c)) = true.
Proof. reflexivity. Qed.

Lemma disciplined_getToken st : disciplined st (fst (getToken c st)).
Proof.
  destruct (decide (Authorization c st = "")) as [He|Hh].
  - destruct (server (trace st) (resolve (heap st) (token_options base64 c)))
      as [r|e] eqn:Hs.
    + rewrite (getToken_exchange _ _ _ _ _ He Hs). cbn [fst].
      exists [EvRequest (resolve (heap st) (token_options base64 c))
                (Resolved r)].
      split; [reflexivity|]. intros _. cbn [token_discipline].
      rewrite token_options_post. unfold token_stored.
      rewrite Authorization_store. by apply truthy_false in He as ->.
    + rewrite (getToken_rejected _ _ _ _ _ He Hs). cbn [fst].
      exists [EvRequest (resolve (heap st) (token_options base64 c))
                (Rejected e)].
      split; [reflexivity|]. intros _. cbn [token_discipline].
      rewrite token_options_post, Authorization_record.
      by apply truthy_false in He as ->.
  - rewrite getToken_held by done. apply disciplined_refl.
Qed.

Lemma respects_ret {E A : Type} (a : A) : respects (ret a : M T E A).
Proof. intros st. apply disciplined_refl. Qed.

Lemma respects_throw {E A : Type} (e : E) :
  respects (throw e : M T E A).
Proof. intros st. apply disciplined_refl. Qed.

Lemma respects_bind {E A B : Type} (m : M T E A) (k : A -> M T E B) :
  respects m -> (forall a, respects (k a)) ->
  respects (bind m k).
Proof.
  intros Hm Hk st. unfold bind. specialize (Hm st).
  destruct (m st) as [st1 [a|e|]]; simpl in *; try done.
  eapply disciplined_trans; [exact Hm|apply Hk].
Qed.

Lemma respects_attempt opts :
  (forall h, is_token_post (resolve h opts) = false) ->
  respects (attempt c opts).
Proof.
  intros Hopts. apply respects_bind.
  - intros st. apply disciplined_getToken.
  - intros _ st. by apply disciplined_request.
Qed.

(** A failed attempt leaves its rejected request as the last new event. *)
Lemma attempt_throw_new opts st st1 err :
  attempt c opts st = (st1, Throw err) ->
  exists evs req,
    trace st1 = (trace st ++ evs ++ [EvRequest req (Rejected err)])%list.
Proof.
  assert (Hreq : forall o s s1,
    request o s = (s1, Throw err) ->
    exists req, trace s1 = (trace s ++ [EvRequest req (Rejected err)])%list).
  { intros o s s1. unfold Umbrella.request.
    destruct (server _ _) eqn:Hs; intros [= <- <-]. rewrite trace_record.
    eauto. }
  destruct (decide (Authorization c st = "")) as [He|Hh].
  - destruct (server (trace st) (resolve (heap st) (token_options base64 c)))
      as [r|e] eqn:Hs; unfold Umbrella.attempt, bind.
    + rewrite (getToken_exchange _ _ _ _ _ He Hs).
      intros [req Hq]%Hreq. eexists _, req. rewrite Hq.
      unfold token_stored. rewrite trace_store, trace_record, <- app_assoc.
      reflexivity.
    + rewrite (getToken_rejected _ _ _ _ _ He Hs). intros [= <- <-].
      exists [], (resolve (heap st) (token_options base64 c)).
      by rewrite trace_record.
  - rewrite attempt_held by done. intros [req Hq]%Hreq.
    by exists [], req.
Qed.

Lemma disciplined_retry_loop opts fuel k st :
  (forall h, is_token_post (resolve h opts) = false) ->
  disciplined st (fst (retry_loop fuel c opts k st)).
Proof.
  intros Hopts. revert k st.
  induction fuel as [|fuel IH]; intros k st; [apply disciplined_refl|].
  pose proof (respects_attempt opts Hopts st) as Hatt.
  destruct (attempt_result server base64 c opts st)
    as [(st1 & r & Ha)|(st1 & err & Ha)]; rewrite Ha in Hatt; simpl in Hatt.
  { by rewrite (retry_loop_return _ _ _ _ _ _ _ _ _ Ha). }
  destruct (decide (err_status err = Some 429%Z)) as [Hs|Hs].
  { rewrite (retry_loop_continue _ _ _ _ _ _ _ _ _ _ Ha
               (on_error_rate_limit c _ k _ Hs)).
    assert (Hsl : disciplined st (after_rate_limit err st1)).
    { eapply disciplined_trans; [exact Hatt|]. unfold after_rate_limit.
      eapply disciplined_trans; by apply disciplined_record. }
    destruct (S k <? MAX_RETRIES)%nat; [|done].
    eapply disciplined_trans; [exact Hsl|apply IH]. }
  destruct (is_auth_status (err_status err) && (k =? 0)%nat) eqn:Hauth.
  { apply andb_true_iff in Hauth as [Hauth Hk].
    apply Nat.eqb_eq in Hk as ->.
    rewrite (retry_loop_continue _ _ _ _ _ _ _ _ _ _ Ha
               (on_error_auth_first c _ _ Hauth)).
    apply attempt_throw_new in Ha as (evs & req & Htr).
    assert (Hobs : forall st',
              disciplined (after_auth_failure c st1) st' -> disciplined st st').
    { intros st'.
      apply (disciplined_auth_failure st (after_auth_failure c st1) st'
               (evs ++ [EvRequest req (Rejected err); EvLog LogAuthRefresh])%list).
      - unfold after_auth_failure.
        rewrite trace_store, trace_record, Htr, <- !app_assoc. reflexivity.
      - rewrite observes_auth_failure_app. simpl. rewrite Hauth.
        apply orb_true_r. }
    destruct (1 <? MAX_RETRIES)%nat; apply Hobs;
      [apply IH|apply disciplined_refl]. }
  destruct err as [message response|name message].
  - rewrite (retry_loop_raise _ _ _ _ _ _ _ _ _ _ _ Ha
               (on_error_gaxios c _ _ _ _ Hs Hauth)).
    eapply disciplined_trans; [exact Hatt|]. by apply disciplined_record.
  - by rewrite (retry_loop_raise _ _ _ _ _ _ _ _ _ _ _ Ha
                  (on_error_other c _ _ _ _)).
Qed.

Lemma page_options_listing requestUrl n h :
  is_token_post (resolve h (page_options c requestUrl n)) = false.
Proof. reflexivity. Qed.

Lemma respects_requestWithRetry requestUrl n :
  respects (requestWithRetry c (page_options c requestUrl n)).
Proof.
  intros st. apply disciplined_retry_loop, page_options_listing.
Qed.

Section Iteratee.

Variable iteratee : @ResourceIteratee T.
Hypothesis iteratee_respects : forall item, respects (iteratee item).

Lemma respects_for_each (items : list T) :
  respects (for_each items iteratee).
Proof.
  induction items as [|item items IH]; simpl.
  - apply respects_ret.
  - by apply respects_bind.
Qed.

Lemma respects_requestIterator_body requestUrl v :
  respects
    (requestIterator_body server base64 c requestUrl iteratee v).
Proof.
  apply respects_bind; [apply respects_requestWithRetry|].
  intros [[status statusText hdrs [token|items|data|] url]|];
    try apply respects_ret.
  destruct (0 <? length items)%nat; [|apply respects_ret].
  apply respects_bind; [apply respects_for_each|].
  intros _. apply respects_ret.
Qed.

Lemma respects_nested_body requestUrl v :
  respects
    (requestIteratorWithNestedData_body server base64 c requestUrl iteratee
       v).
Proof.
  apply respects_bind; [apply respects_requestWithRetry|].
  intros [[status statusText hdrs [token|items|[items|]|] url]|];
    try apply respects_ret.
  apply respects_bind; [apply respects_for_each|].
  intros _. apply respects_ret.
Qed.

Lemma respects_do_while fuel
    (body : LoopVars -> M T IntegrationErr LoopVars) v :
  (forall v', respects (body v')) ->
  respects (do_while fuel body v).
Proof.
  intros Hbody. revert v. induction fuel as [|fuel IH]; intros v.
  - intros st. apply disciplined_refl.
  - simpl. apply respects_bind; [apply Hbody|]. intros v'.
    destruct (negb (done v') && (receivedCount v' =? PAGE_SIZE)%nat);
      [apply IH|apply respects_ret].
Qed.

Lemma respects_run_iteration fuel it :
  respects (run_iteration server base64 fuel c iteratee it).
Proof.
  destruct it as [requestUrl|requestUrl]; apply respects_do_while; intros v.
  - apply respects_requestIterator_body.
  - apply respects_nested_body.
Qed.

Lemma disciplined_iterations fuel its st :
  disciplined st (iterations server base64 fuel c iteratee its st).
Proof.
  revert st. induction its as [|it its IH]; intros st; simpl.
  - apply disciplined_refl.
  - eapply disciplined_trans; [apply respects_run_iteration|apply IH].
Qed.

End Iteratee.

Lemma respects_record_item (item : T) :
  respects (record_item item).
Proof. intros st. by apply disciplined_record. Qed.

(** What the discipline says in numbers. *)
Lemma token_discipline_counts held tr held' :
  token_discipline held tr = Some held' ->
  granted tr <= (if held then 0 else 1)
  /\ (held = true -> exchanges tr = 0)
  /\ (forall tr1 req r tr2,
        tr = (tr1 ++ EvRequest req (Resolved r) :: tr2)%list ->
        is_token_post req = true -> exchanges tr2 = 0).
Proof.
  revert held. induction tr as [|ev tr IH]; intros held Hd.
  { split; [destruct held; simpl; lia|]. split; [done|].
    by intros [|? ?] ? ? ? ?. }
  assert (Hskip : forall b,
            token_discipline b tr = Some held' ->
            granted (ev :: tr) = granted tr ->
            exchanges (ev :: tr) = exchanges tr ->
            (forall req r, ev = EvRequest req (Resolved r) ->
                           is_token_post req = false) ->
            granted (ev :: tr) <= (if b then 0 else 1)
            /\ (b = true -> exchanges (ev :: tr) = 0)
            /\ (forall tr1 req r tr2,
                  ev :: tr = (tr1 ++ EvRequest req (Resolved r) :: tr2)%list ->
                  is_token_post req = true -> exchanges tr2 = 0)).
  { intros b Hb Hg He Hev. destruct (IH _ Hb) as (IH1 & IH2 & IH3).
    rewrite Hg, He. split; [done|]. split; [done|].
    intros [|ev' tr1] req r tr2 Heq Hpost.
    - injection Heq as Heq _. by rewrite (Hev _ _ Heq) in Hpost.
    - injection Heq as _ Htr. by apply (IH3 _ _ _ _ Htr). }
  destruct ev as [req out|entry|ms|item]; simpl in Hd;
    try (by apply Hskip).
  destruct (is_token_post req) eqn:Hpost.
  - destruct held; [done|].
    destruct (IH _ Hd) as (IH1 & IH2 & IH3). simpl. rewrite Hpost.
    split; [|split; [done|]].
    + destruct out; simpl in *; lia.
    + intros [|ev' tr1] req' r tr2 Heq Hpost'.
      * injection Heq as -> -> ->. by apply IH2.
      * injection Heq as _ Htr. by apply (IH3 _ _ _ _ Htr).
  - apply Hskip; try done.
    + simpl. rewrite Hpost. by destruct out.
    + simpl. by rewrite Hpost.
    + by intros req' r [= -> _].
Qed.

(** C8 (amended): whenever the token slot is not empty, getToken returns it
    at once, without any HTTP call or change of state.  So across any
    number of iterations run one after the other on one client, as long as
    no 401 or 403 is observed, the token exchange is granted at most once,
    no POST to the token endpoint is issued after it has been granted, and
    none at all when the client starts with a token.  (An exchange that is
    rejected, with a 429 for instance, leaves the slot empty and is issued
    again.)  The iteratee is any callback that keeps to this itself: one
    that only consumes its record, or one that iterates on the client. *)
Theorem token_granted_at_most_once (iteratee : @ResourceIteratee T)
    (fuel : nat) (its : list Iteration) st :
  (forall item, respects (iteratee item)) ->
  (Authorization c st <> "" ->
   getToken c st = (st, Ret (Authorization c st)))
  /\ exists evs,
       trace (iterations server base64 fuel c iteratee its st)
       = (trace st ++ evs)%list
       /\ (observes_auth_failure evs = false ->
           granted evs <= 1
           /\ (Authorization c st <> "" -> exchanges evs = 0)
           /\ (forall tr1 req r tr2,
                 evs = (tr1 ++ EvRequest req (Resolved r) :: tr2)%list ->
                 is_token_post req = true -> exchanges tr2 = 0)).
Proof.
  intros Hiteratee. split; [apply getToken_held|].
  destruct (disciplined_iterations iteratee Hiteratee fuel its st)
    as (evs & Htrace & Hdisc).
  exists evs. split; [exact Htrace|]. intros Hquiet.
  destruct (token_discipline_counts _ _ _ (Hdisc Hquiet))
    as (Hgranted & Hheld & Hafter).
  split; [|split; [|exact Hafter]].
  - destruct (truthy (Authorization c st)); lia.
  - intros Hne. apply Hheld. by apply truthy_true.
Qed.

End TokenDiscipline.

(** * Concrete runs of the claims *)

Import Scenario.

(** Pages of 100, 100 and 47 records: 247 callbacks, three requests. *)
Lemma iterators_visit_every_record_witness :
  length (callbacks (trace (fst
    (requestIterator (paged_provider "t1" BArray three_pages) plain 4 client
       sites record_item fresh)))) = 247
  /\ listing_urls (trace (fst
       (requestIterator (paged_provider "t1" BArray three_pages) plain 4
          client sites record_item fresh)))
     = ["https://api.umbrella.com/deployments/v2/sites?page=1&limit=100";
        "https://api.umbrella.com/deployments/v2/sites?page=2&limit=100";
        "https://api.umbrella.com/deployments/v2/sites?page=3&limit=100"].
Proof.
  destruct (iterators_visit_every_record plain "t1" client sites three_pages
              4 {[ 0 := initial_headers ]})
    as (_ & _ & Hsizes); [simpl; lia|].
  destruct (Hsizes eq_refl) as (Hflat & _ & Hcount & Hurls & _).
  split.
  - unfold fresh. rewrite Hflat. exact Hcount.
  - exact Hurls.
Defined.

(** Three 429 in a row: no response, and the iteration ends quietly. *)
Lemma exhausted_retries_end_pagination_witness :
  snd (requestWithRetry rate_limiting plain client opts fresh) = Ret None
  /\ snd (requestIterator rate_limiting plain 5 client sites record_item
            fresh) = Ret tt.
Proof.
  pose (st1 := fst (attempt rate_limiting plain client opts fresh)).
  pose (st2 := fst (attempt rate_limiting plain client opts
                      (after_rate_limit (too_many ∅) st1))).
  pose (st3 := fst (attempt rate_limiting plain client opts
                      (after_rate_limit (too_many ∅) st2))).
  destruct (exhausted_retries_end_pagination rate_limiting plain client opts
              fresh st1 (too_many ∅) st2 (too_many ∅) st3 (too_many ∅))
    as (Hnone & _ & Hiter & _); try (vm_compute; reflexivity).
  split.
  - rewrite Hnone. reflexivity.
  - destruct (Hiter 4 sites record_item eq_refl) as [Hflat _].
    rewrite Hflat. reflexivity.
Defined.

(** With the client's headers object in the request, both attempts carry
    the token held at the time. *)
Lemma shared_headers_carry_token_witness :
  req_headers
    (resolve (heap (fst (getToken expired_token plain client fresh))) opts)
    !! "Authorization" = Some "Bearer t1"
  /\ sent_authorization
       (trace (fst (requestWithRetry expired_token plain client opts fresh)))
     = [Some "Bearer t1"; Some "Bearer t2"].
Proof.
  destruct (shared_headers_carry_token expired_token plain client opts fresh
              (fst (getToken expired_token plain client fresh)) "Bearer t1")
    as (_ & _ & Hcarried & _); [vm_compute; reflexivity|].
  split.
  - apply Hcarried. reflexivity.
  - vm_compute. reflexivity.
Defined.

(** A first 401, one token exchange, and the page is returned. *)
Lemma first_auth_failure_refreshes_witness :
  snd (requestWithRetry expired_token plain client opts fresh)
  = Ret (Some sites_page)
  /\ Authorization client
       (fst (requestWithRetry expired_token plain client opts fresh))
     = "Bearer t2"
  /\ request_lines
       (trace (fst (requestWithRetry expired_token plain client opts fresh)))
     = [("POST", token_url); ("GET", sites_page_1);
        ("POST", token_url); ("GET", sites_page_1)].
Proof.
  pose (st1 := fst (attempt expired_token plain client opts fresh)).
  destruct (first_auth_failure_refreshes expired_token plain client opts
              fresh st1 unauthorized)
    as (_ & _ & Hgranted & _); try (vm_compute; reflexivity).
  destruct (Hgranted (ok_response token_url (BToken "t2")))
    as (_ & _ & _ & Hret); [vm_compute; reflexivity|].
  destruct (Hret sites_page) as (Hrun & Htrace & Hslot);
    [vm_compute; reflexivity|].
  rewrite Hrun. split; [reflexivity|]. split; [exact Hslot|].
  cbn [fst]. rewrite Htrace. vm_compute. reflexivity.
Defined.

(** A second 401 is raised as the authentication error. *)
Lemma repeated_401_raises_witness :
  snd (requestWithRetry bad_credentials plain client opts fresh)
  = Throw (IntegrationProviderAuthenticationError (Some 401%Z)
             (Some "Unauthorized") (Some sites_page_1)).
Proof.
  pose (st0 := fst (attempt bad_credentials plain client opts fresh)).
  pose (st := after_auth_failure client st0).
  pose (st1 := fst (attempt bad_credentials plain client opts st)).
  destruct (repeated_401_raises bad_credentials plain client opts 1 1 st st1
              "Request failed"
              (error_response 401 "Unauthorized" ∅ sites_page_1))
    as [_ Hrun]; [lia|vm_compute; reflexivity|reflexivity|].
  rewrite (Hrun fresh st0 unauthorized);
    [reflexivity|vm_compute; reflexivity|reflexivity|reflexivity].
Defined.


(** The token survives a 429. *)
Lemma rate_limit_keeps_token_witness :
  Authorization client
    (after_rate_limit (too_many ∅)
       (fst (attempt rate_limiting plain client opts fresh)))
  = "Bearer t1".
Proof.
  destruct (rate_limit_keeps_token rate_limiting plain client opts 0 fresh
              (fst (attempt rate_limiting plain client opts fresh))
              (too_many ∅))
    as (_ & _ & Hslot & _); [vm_compute; reflexivity|reflexivity|].
  rewrite Hslot. vm_compute. reflexivity.
Defined.

(** Two iterations with a recording iteratee on a fresh client. *)
Lemma token_granted_at_most_once_witness :
  exists evs,
    trace (iterations (paged_provider "t1" BArray three_pages) plain 4 client
             record_item [Flat sites; Flat "/admin/v2/users"] fresh)
    = evs
    /\ granted evs <= 1.
Proof.
  destruct (token_granted_at_most_once
              (paged_provider "t1" BArray three_pages) plain client
              record_item 4 [Flat sites; Flat "/admin/v2/users"] fresh)
    as (_ & evs & Htrace & Hcount).
  - intros item st. exists [EvCallback item]. split; reflexivity.
  - exists evs. split; [exact Htrace|].
    apply Hcount. rewrite <- (app_nil_l evs).
    change (@nil (Event nat)) with (trace fresh). rewrite <- Htrace.
    vm_compute. reflexivity.
Defined.

(** A 500 is raised as the provider API error. *)
Lemma fatal_errors_classified_witness :
  exists tr req err logged,
    trace (fst (requestWithRetry failing plain client opts fresh))
    = (tr ++ EvRequest req (Rejected err) :: logged)%list
    /\ (logged = [] \/ exists entry, logged = [EvLog entry])
    /\ wraps (IntegrationProviderAPIError (Some 500%Z)
                (Some "Internal Server Error") (Some sites_page_1)) err.
Proof.
  apply (fatal_errors_classified failing plain client opts fresh).
  vm_compute. reflexivity.
Defined.

(** A provider that keeps answering 429 passes the verification. *)
Lemma verifyAuthentication_outcome_witness :
  snd (verifyAuthentication rate_limiting plain client fresh) = Ret tt.
Proof.
  pose (vopts := verify_options client).
  pose (st1 := fst (attempt rate_limiting plain client vopts fresh)).
  pose (st2 := fst (attempt rate_limiting plain client vopts
                      (after_rate_limit (too_many ∅) st1))).
  pose (st3 := fst (attempt rate_limiting plain client vopts
                      (after_rate_limit (too_many ∅) st2))).
  destruct (verifyAuthentication_outcome rate_limiting plain client fresh)
    as (_ & _ & _ & Hlimited & _).
  rewrite (Hlimited st1 (too_many ∅) st2 (too_many ∅) st3 (too_many ∅));
    try (vm_compute; reflexivity).
Defined.

(** ** Where the claims as stated fail *)

(** C3 as stated fails: a request whose spec has a headers object of its
    own is sent, also after the token refresh, without the token the
    client holds. *)
Lemma own_headers_sent_without_token :
  let run := requestWithRetry expired_token plain client own_headers fresh in
  snd run = Ret (Some sites_page)
  /\ Authorization client (fst run) = "Bearer t2"
  /\ sent_authorization (trace (fst run)) = [None; None].
Proof. vm_compute. repeat split; reflexivity. Qed.

(** C8 as stated fails: a token exchange that is answered with 429 is
    issued again, so the token endpoint is posted to twice although no 401
    or 403 is observed. *)
Lemma rejected_exchange_issued_again :
  let tr := trace (iterations slow_token plain 4 client record_item
                     [Flat sites] fresh) in
  observes_auth_failure tr = false
  /\ exchanges tr = 2
  /\ ~ exchanges tr <= 1.
Proof.
  vm_compute. split; [reflexivity|]. split; [reflexivity|]. lia.
Qed.

(** C4 as stated fails: when the token exchange that follows a first 401 is
    answered with 429, the exchange is issued again: two token exchanges,
    not one, precede the retried request, whose response is returned. *)
Lemma rejected_refresh_issued_again :
  let run := requestWithRetry refresh_rate_limited plain client opts fresh in
  snd run = Ret (Some sites_page)
  /\ request_lines (trace (fst run))
     = [("POST", token_url); ("GET", sites_page_1);
        ("POST", token_url); ("POST", token_url); ("GET", sites_page_1)]
  /\ request_lines (take 2 (trace (fst run)))
     = [("POST", token_url); ("GET", sites_page_1)]
  /\ exchanges (drop 2 (trace (fst run))) = 2
  /\ exchanges (drop 2 (trace (fst run))) <> 1.
Proof.
  vm_compute. repeat split; try reflexivity. discriminate.
Qed.


(** C9 as stated fails: a failure that is not an HTTP failure, a GaxiosError
    without response, is not raised as the generic wrapped error but as the
    provider API error, without status, statusText or endpoint. *)
Lemma gaxios_error_without_response_not_generic :
  let run := requestWithRetry hanging_up plain client opts fresh in
  err_response hang_up = None
  /\ snd run = Throw (IntegrationProviderAPIError None None None)
  /\ forall message code, snd run <> Throw (IntegrationError message code).
Proof.
  vm_compute. repeat split; try reflexivity. discriminate.
Qed.

(** C10 as stated fails: a provider that cannot be reached is not reported
    as verified, the transport failure is raised. *)
Lemma unreachable_provider_not_verified :
  snd (verifyAuthentication unreachable plain client fresh)
  = Throw (IntegrationError "connect ECONNREFUSED" "FetchError")
  /\ snd (verifyAuthentication unreachable plain client fresh) <> Ret tt.
Proof. vm_compute. split; [reflexivity|discriminate]. Qed.

(** * Further properties of the client *)

(** ** The effort and the outcome of one logical request *)

Section Effort.

Context {T : Type}.
Variable server : list (Event T) -> HttpRequest -> Outcome T.
Variable base64 : string -> string.
Variable c : APIClient.

Local Abbreviation request := (request server).
Local Abbreviation getToken := (getToken server base64).
Local Abbreviation attempt := (attempt server base64).
Local Abbreviation retry_loop := (retry_loop server base64).
Local Abbreviation requestWithRetry := (requestWithRetry server base64).
Local Abbreviation pending := (pending_requests c).

Implicit Types (st : State T) (tr : list (Event T)) (err : JsError T).
Implicit Types (opts : GaxiosOptions) (k fuel : nat).

Lemma requests_app tr1 tr2 :
  requests (tr1 ++ tr2) = requests tr1 + requests tr2.
Proof.
  induction tr1 as [|[req out|entry|ms|item] tr1 IH]; simpl; by rewrite ?IH.
Qed.

Lemma sleeps_app tr1 tr2 : sleeps (tr1 ++ tr2) = sleeps tr1 + sleeps tr2.
Proof.
  induction tr1 as [|[req out|entry|ms|item] tr1 IH]; simpl; by rewrite ?IH.
Qed.

Lemma refreshes_app tr1 tr2 :
  refreshes (tr1 ++ tr2) = refreshes tr1 + refreshes tr2.
Proof.
  induction tr1 as [|[req out|[sl| |s t e]|ms|item] tr1 IH]; simpl;
    by rewrite ?IH.
Qed.

Lemma request_state opts st :
  fst (request opts st)
  = record (EvRequest (resolve (heap st) opts)
              (server (trace st) (resolve (heap st) opts))) st.
Proof. unfold Umbrella.request. by destruct (server _ _). Qed.

Lemma pending_request opts st :
  pending (fst (request opts st)) = S (pending st)
  /\ sleeps (trace (fst (request opts st))) = sleeps (trace st)
  /\ refreshes (trace (fst (request opts st))) = refreshes (trace st).
Proof.
  rewrite request_state. unfold pending_requests.
  rewrite Authorization_record, trace_record, requests_app, sleeps_app,
    refreshes_app.
  simpl. repeat split; lia.
Qed.

(** An attempt accounts for exactly one more request: the one it issues,
    the token exchange being accounted for beforehand. *)
Lemma pending_attempt opts st :
  pending (fst (attempt c opts st)) = S (pending st)
  /\ sleeps (trace (fst (attempt c opts st))) = sleeps (trace st)
  /\ refreshes (trace (fst (attempt c opts st))) = refreshes (trace st).
Proof.
  destruct (decide (Authorization c st = "")) as [He|Hh].
  - destruct (server (trace st) (resolve (heap st) (token_options base64 c)))
      as [r|e] eqn:Hs; unfold Umbrella.attempt, bind.
    + rewrite (getToken_exchange _ _ _ _ _ He Hs).
      pose proof (pending_request opts (token_stored base64 c r st))
        as (Hp & Hsl & Hr).
      destruct (request opts _) as [st2 [a|e|]]; simpl in *;
        rewrite Hp, Hsl, Hr; unfold pending_requests, token_stored;
        rewrite Authorization_store, trace_store, trace_record,
          requests_app, sleeps_app, refreshes_app;
        apply truthy_false in He; rewrite He; simpl; repeat split; lia.
    + rewrite (getToken_rejected _ _ _ _ _ He Hs). simpl.
      unfold pending_requests.
      rewrite Authorization_record, trace_record, requests_app, sleeps_app,
        refreshes_app.
      simpl. repeat split; lia.
  - rewrite attempt_held by done. apply pending_request.
Qed.

(** The catch block, when it lets the loop go on. *)
Lemma pending_on_error err k st st' :
  on_error c err k st = (st', Ret (S k)) ->
  pending st' <= pending st + (if (k =? 0)%nat then 1 else 0)
  /\ sleeps (trace st') <= S (sleeps (trace st))
  /\ refreshes (trace st')
     <= refreshes (trace st) + (if (k =? 0)%nat then 1 else 0).
Proof.
  destruct (decide (err_status err = Some 429%Z)) as [Hs|Hs].
  { rewrite on_error_rate_limit by done. intros [= <-].
    unfold pending_requests, after_rate_limit.
    rewrite !Authorization_record, !trace_record, !requests_app,
      !sleeps_app, !refreshes_app.
    simpl. repeat split; lia. }
  destruct (is_auth_status (err_status err) && (k =? 0)%nat) eqn:Ha.
  { apply andb_true_iff in Ha as [Ha Hk]. apply Nat.eqb_eq in Hk as ->.
    rewrite on_error_auth_first by done. intros [= <-].
    unfold pending_requests, after_auth_failure.
    rewrite Authorization_store, trace_store, trace_record, requests_app,
      sleeps_app, refreshes_app.
    simpl. destruct (truthy (Authorization c st)); repeat split; lia. }
  destruct err as [message response|name message].
  - by rewrite on_error_gaxios.
  - by rewrite on_error_other.
Qed.

(** The catch block, when it raises. *)
Lemma pending_on_error_throw err k st st' e :
  on_error c err k st = (st', Throw e) ->
  pending st' = pending st
  /\ sleeps (trace st') = sleeps (trace st)
  /\ refreshes (trace st') = refreshes (trace st).
Proof.
  destruct (decide (err_status err = Some 429%Z)) as [Hs|Hs].
  { by rewrite on_error_rate_limit. }
  destruct (is_auth_status (err_status err) && (k =? 0)%nat) eqn:Ha.
  { apply andb_true_iff in Ha as [Ha Hk]. apply Nat.eqb_eq in Hk as ->.
    by rewrite on_error_auth_first. }
  destruct err as [message response|name message].
  - rewrite on_error_gaxios by done. intros [= <- _].
    unfold pending_requests, fetch_error_logged.
    rewrite Authorization_record, trace_record, requests_app, sleeps_app,
      refreshes_app.
    simpl. repeat split; lia.
  - rewrite on_error_other. by intros [= <- _].
Qed.

(** The effort of the loop from round [k] on. *)
Lemma retry_loop_effort opts fuel k st :
  k < MAX_RETRIES ->
  let st' := fst (retry_loop fuel c opts k st) in
  pending st'
  <= pending st + (MAX_RETRIES - k) + (if (k =? 0)%nat then 1 else 0)
  /\ sleeps (trace st') <= sleeps (trace st) + (MAX_RETRIES - k)
  /\ refreshes (trace st')
     <= refreshes (trace st) + (if (k =? 0)%nat then 1 else 0).
Proof.
  revert k st. induction fuel as [|fuel IH]; intros k st Hk; cbv zeta.
  { simpl. repeat split; lia. }
  pose proof (pending_attempt opts st) as (Hp & Hsl & Hr).
  destruct (attempt_result server base64 c opts st)
    as [(st1 & r & Ha)|(st1 & err & Ha)]; rewrite Ha in Hp, Hsl, Hr;
    simpl in Hp, Hsl, Hr.
  { rewrite (retry_loop_return _ _ _ _ _ _ _ _ _ Ha). simpl.
    unfold MAX_RETRIES in *. repeat split; lia. }
  destruct (on_error_result c err k st1) as [(st2 & Hh)|(st2 & e & Hh)].
  - rewrite (retry_loop_continue _ _ _ _ _ _ _ _ _ _ Ha Hh).
    apply pending_on_error in Hh as (Hp2 & Hsl2 & Hr2).
    destruct (S k <? MAX_RETRIES)%nat eqn:Hlt.
    + apply Nat.ltb_lt in Hlt.
      destruct (IH (S k) st2 Hlt) as (Hp3 & Hsl3 & Hr3). simpl in Hp3, Hr3.
      unfold MAX_RETRIES in *. repeat split; lia.
    + simpl. unfold MAX_RETRIES in *. repeat split; lia.
  - rewrite (retry_loop_raise _ _ _ _ _ _ _ _ _ _ _ Ha Hh). simpl.
    apply pending_on_error_throw in Hh as (Hp2 & Hsl2 & Hr2).
    unfold MAX_RETRIES in *. repeat split; lia.
Qed.

(** X1: one call of requestWithRetry issues at most five HTTP requests,
    token exchanges included, and at most four when it starts with a token;
    it sleeps at most three times and refreshes the token at most once. *)
Theorem requestWithRetry_effort opts st :
  let st' := fst (requestWithRetry c opts st) in
  requests (trace st')
  <= requests (trace st) + (if truthy (Authorization c st) then 4 else 5)
  /\ sleeps (trace st') <= sleeps (trace st) + 3
  /\ refreshes (trace st') <= refreshes (trace st) + 1.
Proof.
  destruct (retry_loop_effort opts MAX_RETRIES 0 st) as (Hp & Hsl & Hr).
  { unfold MAX_RETRIES. lia. }
  change (retry_loop MAX_RETRIES c opts 0 st)
    with (requestWithRetry c opts st) in *.
  simpl. split; [|split; [exact Hsl|exact Hr]].
  unfold pending_requests in Hp. simpl in Hp.
  destruct (truthy (Authorization c st));
    destruct (truthy (Authorization c (fst (requestWithRetry c opts st))));
    lia.
Qed.

(** A successful attempt ends with the request, resolved. *)
Lemma attempt_ret_last opts st st1 r :
  attempt c opts st = (st1, Ret r) ->
  exists tr,
    trace st1
    = (tr ++ [EvRequest (resolve (heap st1) opts) (Resolved r)])%list.
Proof.
  assert (Hreq : forall s s1,
    request opts s = (s1, Ret r) ->
    exists tr,
      trace s1
      = (tr ++ [EvRequest (resolve (heap s1) opts) (Resolved r)])%list).
  { intros s s1. unfold Umbrella.request.
    destruct (server _ _) eqn:Hs; intros [= <- <-]. rewrite trace_record.
    eauto. }
  destruct (decide (Authorization c st = "")) as [He|Hh].
  - destruct (server (trace st) (resolve (heap st) (token_options base64 c)))
      as [r0|e] eqn:Hs; unfold Umbrella.attempt, bind.
    + rewrite (getToken_exchange _ _ _ _ _ He Hs). apply Hreq.
    + by rewrite (getToken_rejected _ _ _ _ _ He Hs).
  - rewrite attempt_held by done. apply Hreq.
Qed.

Lemma retry_loop_some opts fuel k st st' r :
  retry_loop fuel c opts k st = (st', Ret (Some r)) ->
  exists st0, attempt c opts st0 = (st', Ret r).
Proof.
  revert k st. induction fuel as [|fuel IH]; intros k st; [discriminate|].
  destruct (attempt_result server base64 c opts st)
    as [(st1 & r1 & Ha)|(st1 & err & Ha)].
  { rewrite (retry_loop_return _ _ _ _ _ _ _ _ _ Ha). intros [= <- <-].
    eauto. }
  destruct (on_error_result c err k st1) as [(st2 & Hh)|(st2 & e' & Hh)].
  - rewrite (retry_loop_continue _ _ _ _ _ _ _ _ _ _ Ha Hh).
    destruct (S k <? MAX_RETRIES)%nat; [apply IH|discriminate].
  - by rewrite (retry_loop_raise _ _ _ _ _ _ _ _ _ _ _ Ha Hh).
Qed.

Lemma retry_loop_none opts fuel k st st' :
  retry_loop fuel c opts k st = (st', Ret None) ->
  exists st0 st1 err k',
    attempt c opts st0 = (st1, Throw err)
    /\ on_error c err k' st1 = (st', Ret (S k'))
    /\ MAX_RETRIES <= S k'.
Proof.
  revert k st. induction fuel as [|fuel IH]; intros k st; [discriminate|].
  destruct (attempt_result server base64 c opts st)
    as [(st1 & r1 & Ha)|(st1 & err & Ha)].
  { by rewrite (retry_loop_return _ _ _ _ _ _ _ _ _ Ha). }
  destruct (on_error_result c err k st1) as [(st2 & Hh)|(st2 & e' & Hh)].
  - rewrite (retry_loop_continue _ _ _ _ _ _ _ _ _ _ Ha Hh).
    destruct (S k <? MAX_RETRIES)%nat eqn:Hlt; [apply IH|].
    intros [= <-]. apply Nat.ltb_ge in Hlt. eauto 10.
  - by rewrite (retry_loop_raise _ _ _ _ _ _ _ _ _ _ _ Ha Hh).
Qed.

(** X2: what requestWithRetry returns.  A response is the provider's answer
    to the last request issued, which is the request of the spec with the
    headers as they are then.  No response is returned only when the last
    request was answered with 429, and only after the routine has logged and
    slept once more. *)
Theorem requestWithRetry_outcome opts st st' response :
  requestWithRetry c opts st = (st', Ret response) ->
  match response with
  | Some r =>
      exists tr,
        trace st'
        = (tr ++ [EvRequest (resolve (heap st') opts) (Resolved r)])%list
  | None =>
      exists tr req err,
        trace st'
        = (tr ++ [EvRequest req (Rejected err);
                  EvLog (LogRateLimit (sleepTime err));
                  EvSleep (sleepTime err)])%list
        /\ err_status err = Some 429%Z
  end.
Proof.
  destruct response as [r|]; intros Hrun.
  - apply retry_loop_some in Hrun as [st0 Ha].
    by apply attempt_ret_last in Ha.
  - apply retry_loop_none in Hrun as (st0 & st1 & err & k' & Ha & Hh & Hk).
    apply attempt_throw_last in Ha as (tr & req & Htr).
    destruct (decide (err_status err = Some 429%Z)) as [Hs|Hs].
    + rewrite on_error_rate_limit in Hh by done. injection Hh as <-.
      exists tr, req, err. split; [|done].
      unfold after_rate_limit. rewrite !trace_record, Htr, <- !app_assoc.
      reflexivity.
    + exfalso.
      assert (Hauth : is_auth_status (err_status err) && (k' =? 0)%nat
                      = false).
      { destruct k'; [unfold MAX_RETRIES in Hk; lia|apply andb_false_r]. }
      destruct err as [message resp|name message].
      * rewrite on_error_gaxios in Hh by done. discriminate.
      * rewrite on_error_other in Hh. discriminate.
Qed.

(** X3: the retries are counted together.  When a 429 has been absorbed
    and the next attempt fails with 401 or 403, the routine raises the
    authentication or authorization error at once: the token is neither
    cleared nor refreshed. *)
Theorem auth_failure_after_rate_limit_raises
    opts st st1 e1 st2 message response :
  attempt c opts st = (st1, Throw e1) ->
  err_status e1 = Some 429%Z ->
  attempt c opts (after_rate_limit e1 st1)
  = (st2, Throw (GaxiosError message (Some response))) ->
  res_status response = 401%Z \/ res_status response = 403%Z ->
  let err := GaxiosError message (Some response) in
  let final := fetch_error_logged err st2 in
  requestWithRetry c opts st
  = (final,
     Throw ((if decide (res_status response = 401%Z)
             then IntegrationProviderAuthenticationError
             else IntegrationProviderAuthorizationError)
              (Some (res_status response))
              (Some (res_statusText response))
              (Some (res_config_url response))))
  /\ heap final = heap st2
  /\ Authorization c final = Authorization c st2
  /\ refreshes (trace final) = refreshes (trace st).
Proof.
  intros Ha1 Hs1 Ha2 Hstatus err final.
  split; [|split; [done|split; [done|]]].
  - rewrite requestWithRetry_rounds.
    rewrite (retry_loop_continue _ _ _ _ _ _ _ _ _ _ Ha1
               (on_error_rate_limit c _ _ _ Hs1)).
    change (1 <? MAX_RETRIES)%nat with true. cbv iota.
    eapply retry_loop_raise; [exact Ha2|].
    rewrite on_error_gaxios; unfold err_status; simpl.
    + f_equal. f_equal.
      destruct Hstatus as [-> | ->]; reflexivity.
    + destruct Hstatus as [-> | ->]; discriminate.
    + apply andb_false_r.
  - pose proof (pending_attempt opts st) as (_ & _ & Hr1).
    pose proof (pending_attempt opts (after_rate_limit e1 st1))
      as (_ & _ & Hr2).
    rewrite Ha1 in Hr1. rewrite Ha2 in Hr2. simpl in Hr1, Hr2.
    unfold final, fetch_error_logged, record. cbn [trace].
    rewrite refreshes_app, Hr2. unfold after_rate_limit, record. cbn [trace].
    rewrite !refreshes_app, Hr1. simpl. lia.
Qed.

(** X4: getToken caches.  A token it returns is not empty and is the
    value of the slot afterwards, so asking again returns the same token
    without any request; a token it had to acquire is the access token
    prefixed with Bearer.  When the exchange is rejected the slot stays
    empty and no header object has changed. *)
Theorem getToken_caches st st1 result :
  getToken c st = (st1, result) ->
  match result with
  | Ret tok =>
      tok <> ""
      /\ Authorization c st1 = tok
      /\ getToken c st1 = (st1, Ret tok)
      /\ (Authorization c st = "" ->
          exists r req,
            tok = "Bearer " ++ access_token_of (res_data r)
            /\ trace st1 = (trace st ++ [EvRequest req (Resolved r)])%list)
  | Throw e =>
      Authorization c st = ""
      /\ heap st1 = heap st
      /\ exists req, trace st1 = (trace st ++ [EvRequest req (Rejected e)])%list
  | OutOfFuel => False
  end.
Proof.
  destruct (decide (Authorization c st = "")) as [He|Hh].
  - destruct (server (trace st) (resolve (heap st) (token_options base64 c)))
      as [r|e] eqn:Hs.
    + rewrite (getToken_exchange _ _ _ _ _ He Hs). intros [= <- <-].
      assert (Hslot : Authorization c (token_stored base64 c r st)
                      = "Bearer " ++ access_token_of (res_data r))
        by apply Authorization_store.
      split; [done|]. split; [exact Hslot|]. split.
      * rewrite getToken_held; rewrite Hslot; done.
      * intros _. eexists r, _. split; [done|]. reflexivity.
    + rewrite (getToken_rejected _ _ _ _ _ He Hs). intros [= <- <-].
      split; [done|]. split; [done|]. eexists. reflexivity.
  - rewrite getToken_held by done. intros [= <- <-].
    split; [done|]. split; [done|]. split; [by apply getToken_held|done].
Qed.

End Effort.

(** ** What the client leaves alone *)

Section Preserved.

Context {T : Type}.
Variable server : list (Event T) -> HttpRequest -> Outcome T.
Variable base64 : string -> string.
Variable c : APIClient.

(** Any relation between states that holds along the two primitive changes
    of state, adding an event and assigning the Authorization field, holds
    along every operation of the client. *)
Variable R : State T -> State T -> Prop.
Hypothesis R_refl : forall st, R st st.
Hypothesis R_trans : forall st1 st2 st3, R st1 st2 -> R st2 st3 -> R st1 st3.
Hypothesis R_record : forall ev st, R st (record ev st).
Hypothesis R_store : forall v st, R st (store_Authorization c v st).

Local Abbreviation preserves := (preserves R).

Implicit Types (st : State T) (opts : GaxiosOptions).

Lemma preserves_ret {E A : Type} (a : A) : preserves (ret a : M T E A).
Proof. intros st. apply R_refl. Qed.

Lemma preserves_bind {E A B : Type} (m : M T E A) (k : A -> M T E B) :
  preserves m -> (forall a, preserves (k a)) -> preserves (bind m k).
Proof.
  intros Hm Hk st. unfold bind. specialize (Hm st).
  destruct (m st) as [st1 [a|e|]]; simpl in *; try done.
  eapply R_trans; [exact Hm|apply Hk].
Qed.

Lemma preserves_request opts : preserves (request server opts).
Proof. intros st. rewrite request_state. apply R_record. Qed.

Lemma preserves_getToken : preserves (getToken server base64 c).
Proof.
  intros st. destruct (decide (Authorization c st = "")) as [He|Hh].
  - destruct (server (trace st) (resolve (heap st) (token_options base64 c)))
      as [r|e] eqn:Hs.
    + rewrite (getToken_exchange _ _ _ _ _ He Hs). simpl.
      unfold token_stored. eapply R_trans; [apply R_record|apply R_store].
    + rewrite (getToken_rejected _ _ _ _ _ He Hs). apply R_record.
  - rewrite getToken_held by done. apply R_refl.
Qed.

Lemma preserves_attempt opts : preserves (attempt server base64 c opts).
Proof.
  apply preserves_bind; [apply preserves_getToken|].
  intros _. apply preserves_request.
Qed.

Lemma preserves_on_error (err : JsError T) k : preserves (on_error c err k).
Proof.
  intros st.
  destruct (decide (err_status err = Some 429%Z)) as [Hs|Hs].
  { rewrite on_error_rate_limit by done. simpl. unfold after_rate_limit.
    eapply R_trans; apply R_record. }
  destruct (is_auth_status (err_status err) && (k =? 0)%nat) eqn:Ha.
  { apply andb_true_iff in Ha as [Ha Hk]. apply Nat.eqb_eq in Hk as ->.
    rewrite on_error_auth_first by done. simpl. unfold after_auth_failure.
    eapply R_trans; [apply R_record|apply R_store]. }
  destruct err as [message response|name message].
  - rewrite on_error_gaxios by done. apply R_record.
  - apply R_refl.
Qed.

Lemma preserves_retry_loop opts fuel k :
  preserves (retry_loop server base64 fuel c opts k).
Proof.
  revert k. induction fuel as [|fuel IH]; intros k st; [apply R_refl|].
  pose proof (preserves_attempt opts st) as Hatt.
  destruct (attempt_result server base64 c opts st)
    as [(st1 & r & Ha)|(st1 & err & Ha)]; rewrite Ha in Hatt; simpl in Hatt.
  { by rewrite (retry_loop_return _ _ _ _ _ _ _ _ _ Ha). }
  pose proof (preserves_on_error err k st1) as Hcatch.
  destruct (on_error_result c err k st1) as [(st2 & Hh)|(st2 & e & Hh)];
    rewrite Hh in Hcatch; simpl in Hcatch.
  - rewrite (retry_loop_continue _ _ _ _ _ _ _ _ _ _ Ha Hh).
    destruct (S k <? MAX_RETRIES)%nat.
    + eapply R_trans; [exact Hatt|]. eapply R_trans; [exact Hcatch|apply IH].
    + eapply R_trans; [exact Hatt|exact Hcatch].
  - rewrite (retry_loop_raise _ _ _ _ _ _ _ _ _ _ _ Ha Hh).
    eapply R_trans; [exact Hatt|exact Hcatch].
Qed.

Lemma preserves_requestWithRetry opts :
  preserves (requestWithRetry server base64 c opts).
Proof. apply preserves_retry_loop. Qed.

Lemma preserves_verifyAuthentication :
  preserves (verifyAuthentication server base64 c).
Proof.
  apply preserves_bind; [apply preserves_requestWithRetry|].
  intros [r|]; apply preserves_ret.
Qed.

Section Iteratee.

Variable iteratee : @ResourceIteratee T.
Hypothesis iteratee_preserves : forall item, preserves (iteratee item).

Lemma preserves_for_each (items : list T) :
  preserves (for_each items iteratee).
Proof.
  induction items as [|item items IH]; simpl.
  - apply preserves_ret.
  - by apply preserves_bind.
Qed.

Lemma preserves_requestIterator_body requestUrl v :
  preserves (requestIterator_body server base64 c requestUrl iteratee v).
Proof.
  apply preserves_bind; [apply preserves_requestWithRetry|].
  intros [[status statusText hdrs [token|items|data|] url]|];
    try apply preserves_ret.
  destruct (0 <? length items)%nat; [|apply preserves_ret].
  apply preserves_bind; [apply preserves_for_each|].
  intros _. apply preserves_ret.
Qed.

Lemma preserves_nested_body requestUrl v :
  preserves
    (requestIteratorWithNestedData_body server base64 c requestUrl iteratee
       v).
Proof.
  apply preserves_bind; [apply preserves_requestWithRetry|].
  intros [[status statusText hdrs [token|items|[items|]|] url]|];
    try apply preserves_ret.
  apply preserves_bind; [apply preserves_for_each|].
  intros _. apply preserves_ret.
Qed.

Lemma preserves_do_while fuel
    (body : LoopVars -> M T IntegrationErr LoopVars) v :
  (forall v', preserves (body v')) ->
  preserves (do_while fuel body v).
Proof.
  intros Hbody. revert v. induction fuel as [|fuel IH]; intros v.
  - intros st. apply R_refl.
  - simpl. apply preserves_bind; [apply Hbody|]. intros v'.
    destruct (negb (done v') && (receivedCount v' =? PAGE_SIZE)%nat);
      [apply IH|apply preserves_ret].
Qed.

Lemma preserves_run_iteration fuel it :
  preserves (run_iteration server base64 fuel c iteratee it).
Proof.
  destruct it as [requestUrl|requestUrl]; apply preserves_do_while; intros v.
  - apply preserves_requestIterator_body.
  - apply preserves_nested_body.
Qed.

End Iteratee.

End Preserved.

Section Frame.

Context {T : Type}.
Variable server : list (Event T) -> HttpRequest -> Outcome T.
Variable base64 : string -> string.
Variable c : APIClient.

Implicit Types (st : State T).

Lemma only_token_changed_refl st : only_token_changed c st st.
Proof. split; [done|]. exists []. by rewrite app_nil_r. Qed.

Lemma only_token_changed_trans st1 st2 st3 :
  only_token_changed c st1 st2 -> only_token_changed c st2 st3 ->
  only_token_changed c st1 st3.
Proof.
  intros [Hh1 [evs1 Ht1]] [Hh2 [evs2 Ht2]]. split.
  - intros l key Hk. by rewrite Hh2, Hh1.
  - exists (evs1 ++ evs2)%list. by rewrite Ht2, Ht1, app_assoc.
Qed.

Lemma only_token_changed_record (ev : Event T) st :
  only_token_changed c st (record ev st).
Proof. split; [done|]. by exists [ev]. Qed.

Lemma only_token_changed_store v st :
  only_token_changed c st (store_Authorization c v st).
Proof.
  split; [|exists []; by rewrite app_nil_r].
  intros l key Hk. unfold store_Authorization, heap_get. simpl.
  destruct (decide (l = headers c)) as [->|Hl].
  - rewrite lookup_insert_eq. simpl. destruct Hk as [Hk|Hk]; [done|].
    by rewrite lookup_insert_ne.
  - by rewrite lookup_insert_ne.
Qed.

(** X5: the only header the client ever assigns is the Authorization field
    of its own headers object: requestWithRetry, verifyAuthentication and
    the iterators (with an iteratee that does as much) leave every other
    field, Content-Type included, and every other header object as they
    were, and they only add to the trace. *)
Theorem client_only_assigns_its_token
    (iteratee : @ResourceIteratee T) st :
  (forall item st0, only_token_changed c st0 (fst (iteratee item st0))) ->
  (forall opts,
     only_token_changed c st (fst (requestWithRetry server base64 c opts st)))
  /\ only_token_changed c st (fst (verifyAuthentication server base64 c st))
  /\ (forall fuel it,
        only_token_changed c st
          (fst (run_iteration server base64 fuel c iteratee it st)))
  /\ (forall opts,
        heap_get (heap (fst (requestWithRetry server base64 c opts st)))
          (headers c) !! "Content-Type"
        = heap_get (heap st) (headers c) !! "Content-Type").
Proof.
  intros Hiteratee.
  assert (Hreq : forall opts,
            only_token_changed c st
              (fst (requestWithRetry server base64 c opts st))).
  { intros opts.
    apply (preserves_requestWithRetry server base64 c (only_token_changed c)
             only_token_changed_refl only_token_changed_trans
             only_token_changed_record only_token_changed_store). }
  split; [exact Hreq|]. split; [|split].
  - apply (preserves_verifyAuthentication server base64 c
             (only_token_changed c)
             only_token_changed_refl only_token_changed_trans
             only_token_changed_record only_token_changed_store).
  - intros fuel it.
    apply (preserves_run_iteration server base64 c (only_token_changed c)
             only_token_changed_refl only_token_changed_trans
             only_token_changed_record only_token_changed_store
             iteratee Hiteratee).
  - intros opts. destruct (Hreq opts) as [Hheap _]. apply Hheap. by right.
Qed.

End Frame.

(** ** More on pagination *)

Section Mismatch.

Context {T : Type}.
Variable base64 : string -> string.
Variable token : string.
Variable c : APIClient.
Variable requestUrl : string.

Local Abbreviation with_token := (with_token base64 c token).
Local Abbreviation nest := (fun items : list T => BMeta (Some items)).

Implicit Types (st : State T) (v : LoopVars) (pages : list (list T)).

(** The state after the request for page number [n] was answered with
    [body]. *)
Local Abbreviation answered st n body :=
  (record
     (EvRequest (resolve (heap (with_token st)) (page_options c requestUrl n))
        (Resolved (ok_response (opt_url (page_options c requestUrl n)) body)))
     (with_token st)).

(** X6: the two iterators do not take each other's endpoints.  Against a
    provider that answers with the nested envelope, requestIterator issues
    one request, never calls the iteratee and returns normally, whatever
    the pages hold; so does requestIteratorWithNestedData against a
    provider that answers with flat arrays. *)
Theorem envelope_mismatch_iterates_nothing
    pages (iteratee : @ResourceIteratee T) fuel st :
  let first := nth (listings (trace st)) pages [] in
  requestIterator (paged_provider token nest pages) base64 (S fuel) c
    requestUrl iteratee st
  = (answered st 1 (BMeta (Some first)), Ret tt)
  /\ requestIteratorWithNestedData (paged_provider token BArray pages) base64
       (S fuel) c requestUrl iteratee st
     = (answered st 1 (BArray first), Ret tt).
Proof.
  intros first. split.
  - unfold requestIterator.
    erewrite do_while_step with (v' := stopped initial_vars); [done|].
    unfold requestIterator_body, bind.
    by rewrite (requestWithRetry_paged base64 token nest pages c requestUrl).
  - unfold requestIteratorWithNestedData.
    erewrite do_while_step with (v' := stopped initial_vars); [done|].
    unfold requestIteratorWithNestedData_body, bind.
    by rewrite (requestWithRetry_paged base64 token BArray pages c requestUrl).
Qed.

(** *** An iteratee that throws *)

Section Picky.

Variable bad : T -> bool.
Variable e : IntegrationErr.

Lemma for_each_picky (good : list T) (b : T) (rest : list T) st :
  Forall (fun item => bad item = false) good ->
  bad b = true ->
  for_each (good ++ b :: rest) (picky_iteratee bad e) st
  = ({| heap := heap st;
        trace := trace st ++ map EvCallback (good ++ [b]) |}, Throw e).
Proof.
  intros Hgood Hbad. revert st.
  induction Hgood as [|item good Hitem _ IH]; intros st; simpl.
  - unfold bind, picky_iteratee, bind, emit. by rewrite Hbad.
  - unfold bind at 1. unfold picky_iteratee at 1. unfold bind at 1.
    unfold emit at 1. rewrite Hitem. unfold ret at 1. rewrite IH. simpl.
    by rewrite <- app_assoc.
Qed.

(** X7: an error thrown by the iteratee ends the iteration.  When the
    iteratee throws on a record of the page just fetched, at any page, both
    iterators raise that error: the records before it have been handed
    over, those after it are not, and no further page is requested. *)
Theorem iteratee_error_ends_iteration
    pages (good : list T) (b : T) (rest : list T) fuel v st :
  nth (listings (trace st)) pages [] = (good ++ b :: rest)%list ->
  Forall (fun item => bad item = false) good ->
  bad b = true ->
  let stop := fun body : Body T =>
    ({| heap := heap (with_token st);
        trace := trace (answered st (page v) body)
                 ++ map EvCallback (good ++ [b]) |},
     @Throw IntegrationErr unit e) in
  do_while (S fuel)
    (requestIterator_body (paged_provider token BArray pages) base64 c
       requestUrl (picky_iteratee bad e)) v st
  = stop (BArray (good ++ b :: rest)%list)
  /\ do_while (S fuel)
       (requestIteratorWithNestedData_body (paged_provider token nest pages)
          base64 c requestUrl (picky_iteratee bad e)) v st
     = stop (BMeta (Some (good ++ b :: rest)%list)).
Proof.
  intros Hpage Hgood Hbad stop. split.
  - apply do_while_raise.
    erewrite requestIterator_body_items;
      [|apply (requestWithRetry_paged base64 token BArray pages c requestUrl)
       |simpl; rewrite Hpage; reflexivity
       |by destruct good].
    unfold bind. rewrite for_each_picky by done. by rewrite Hpage.
  - apply do_while_raise.
    erewrite nested_body_items;
      [|apply (requestWithRetry_paged base64 token nest pages c requestUrl)
       |simpl; rewrite Hpage; reflexivity].
    unfold bind. rewrite for_each_picky by done. by rewrite Hpage.
Qed.

End Picky.

(** *** A provider that never runs out *)

Lemma requestWithRetry_endless (body : Body T) n st :
  let opts := page_options c requestUrl n in
  let response := ok_response (opt_url opts) body in
  requestWithRetry (endless_provider token body) base64 c opts st
  = (answered st n body, Ret (Some response)).
Proof.
  intros opts response. rewrite requestWithRetry_rounds.
  apply retry_loop_return. unfold Umbrella.with_token.
  destruct (truthy (Authorization c st)) eqn:Hh.
  - apply truthy_true in Hh. rewrite attempt_held by done.
    by apply request_resolved.
  - apply truthy_false in Hh. unfold attempt, bind.
    erewrite getToken_exchange; [|done|reflexivity].
    by apply request_resolved.
Qed.

Lemma answered_listings st n (body : Body T) (items : list T) :
  listings (trace (answered st n body) ++ map EvCallback items)
  = S (listings (trace st)).
Proof.
  rewrite trace_record, !listings_app, listings_callbacks.
  rewrite (with_token_listings base64 token c). simpl. lia.
Qed.

Lemma do_while_endless (envelope : list T -> Body T) body_of
    (items : list T) fuel :
  length items = PAGE_SIZE ->
  (forall v st,
     body_of v st
     = ({| heap := heap (with_token st);
           trace := trace (answered st (page v) (envelope items))
                    ++ map EvCallback items |},
        Ret (advanced v items))) ->
  forall v st,
    done v = false ->
    exists st',
      do_while fuel body_of v st = (st', OutOfFuel)
      /\ listings (trace st') = listings (trace st) + fuel
      /\ length (callbacks (trace st'))
         = length (callbacks (trace st)) + fuel * PAGE_SIZE.
Proof.
  intros Hfull Hbody. induction fuel as [|fuel IH]; intros v st Hdone.
  { exists st. simpl. repeat split; lia. }
  rewrite (do_while_step _ _ _ _ _ _ (Hbody v st)). simpl.
  rewrite Hdone, Hfull, Nat.eqb_refl. simpl.
  destruct (IH (advanced v items)
              {| heap := heap (with_token st);
                 trace := trace (answered st (page v) (envelope items))
                          ++ map EvCallback items |} Hdone)
    as (st' & Hrun & Hlist & Hcalls).
  exists st'. split; [exact Hrun|]. cbn [trace] in Hlist, Hcalls.
  rewrite answered_listings in Hlist.
  rewrite callbacks_app, callbacks_map, length_app, Hfull in Hcalls.
  rewrite trace_record, callbacks_app in Hcalls. simpl in Hcalls.
  rewrite app_nil_r in Hcalls.
  assert (Hsame : callbacks (trace (with_token st)) = callbacks (trace st)).
  { unfold Umbrella.with_token. destruct (truthy (Authorization c st)); [done|].
    unfold token_stored. rewrite trace_store, trace_record, callbacks_app.
    simpl. by rewrite app_nil_r. }
  rewrite Hsame in Hcalls. unfold PAGE_SIZE in *. split; lia.
Qed.

(** X8: the iterators have no bound on the number of pages.  Against a
    provider that answers every request with a full page they never stop:
    whatever the number of rounds granted, they are still going, having
    issued one request and handed over a full page of records per round. *)
Theorem endless_full_pages_never_end (items : list T) fuel st :
  length items = PAGE_SIZE ->
  (exists st',
     requestIterator (endless_provider token (BArray items)) base64 fuel c
       requestUrl record_item st = (st', OutOfFuel)
     /\ listings (trace st') = listings (trace st) + fuel
     /\ length (callbacks (trace st'))
        = length (callbacks (trace st)) + fuel * PAGE_SIZE)
  /\ (exists st',
        requestIteratorWithNestedData
          (endless_provider token (BMeta (Some items))) base64 fuel c
          requestUrl record_item st = (st', OutOfFuel)
        /\ listings (trace st') = listings (trace st) + fuel
        /\ length (callbacks (trace st'))
           = length (callbacks (trace st)) + fuel * PAGE_SIZE).
Proof.
  intros Hfull. split.
  - apply (do_while_endless BArray _ items); [done| |done].
    intros v st0.
    erewrite requestIterator_body_items;
      [|apply requestWithRetry_endless|reflexivity
       |by destruct items].
    unfold bind. by rewrite for_each_record_item.
  - apply (do_while_endless nest _ items); [done| |done].
    intros v st0.
    erewrite nested_body_items;
      [|apply requestWithRetry_endless|reflexivity].
    unfold bind. by rewrite for_each_record_item.
Qed.

End Mismatch.

(** ** The client of the process *)

(** X9: getOrCreateAPIClient hands out one client per process.  The first
    call builds it from the configuration given, with a headers object of
    its own, new on the heap, whose Authorization field is empty; every
    later call returns this same client and changes nothing, whatever
    configuration it is given. *)
Theorem getOrCreateAPIClient_singleton {T : Type}
    (config1 config2 : IntegrationConfig) (p : Process T) :
  let first := getOrCreateAPIClient config1 p in
  let second := getOrCreateAPIClient config2 (snd first) in
  fst second = fst first
  /\ snd second = snd first
  /\ singleton (snd first) = Some (fst first)
  /\ (forall c0, singleton p = Some c0 -> first = (c0, p))
  /\ (singleton p = None ->
      config (fst first) = config1
      /\ heap (memory p) !! headers (fst first) = None
      /\ heap_get (heap (memory (snd first))) (headers (fst first))
         = initial_headers
      /\ Authorization (fst first) (memory (snd first)) = ""
      /\ (forall l, l <> headers (fst first) ->
            heap (memory (snd first)) !! l = heap (memory p) !! l)
      /\ trace (memory (snd first)) = trace (memory p)).
Proof.
  intros first second. subst first second.
  unfold getOrCreateAPIClient at 2 3 4 5.
  destruct (singleton p) as [c0|] eqn:Hp.
  - unfold getOrCreateAPIClient. rewrite Hp. simpl. rewrite Hp.
    repeat split; try done. by intros c1 [= ->].
  - unfold getOrCreateAPIClient. rewrite Hp. simpl.
    split; [done|]. split; [done|]. split; [done|]. split; [done|].
    intros _. split; [done|]. split.
    { apply not_elem_of_dom, is_fresh. }
    split.
    { unfold heap_get. by rewrite lookup_insert_eq. }
    split.
    { unfold Authorization, heap_get. simpl. by rewrite lookup_insert_eq. }
    split; [|done].
    intros l Hl. by rewrite lookup_insert_ne.
Qed.

(** ** Graph keys *)

Section KeyFacts.

Variable POLICY_type : string.
Variable NETWORK_TUNNEL_type : string.
Variable number : Type.
Variable ToString : number -> string.

Local Abbreviation createPolicyKey :=
  (createPolicyKey POLICY_type number ToString).
Local Abbreviation createNetworkTunnelKey :=
  (createNetworkTunnelKey NETWORK_TUNNEL_type number ToString).

Lemma append_cancel (p s1 s2 : string) : p ++ s1 = p ++ s2 -> s1 = s2.
Proof. induction p as [|ch p IH]; simpl; [done|]. intros [= H]. auto. Qed.

(** Two strings without colon that are followed by a colon and agree
    afterwards up to there are equal, and so is what follows. *)
Lemma colon_split (p1 p2 s1 s2 : string) :
  colon_free p1 = true -> colon_free p2 = true ->
  p1 ++ ":" ++ s1 = p2 ++ ":" ++ s2 ->
  p1 = p2 /\ s1 = s2.
Proof.
  revert p2. induction p1 as [|ch1 p1 IH]; intros [|ch2 p2]; simpl.
  - intros _ _ Heq. injection Heq as Heq. by split.
  - intros _ Hfree Heq. injection Heq as <- _. done.
  - intros Hfree _ Heq. injection Heq as -> _. done.
  - intros [_ H1]%andb_true_iff [_ H2]%andb_true_iff Heq.
    injection Heq as -> Heq.
    destruct (IH _ H1 H2 Heq) as [-> ->]. done.
Qed.

(** X10: the keys of the converters identify their entity as far as the
    rendering of its id does.  Two policies, and two network tunnels, have
    the same key exactly when their ids are rendered the same; when the two
    type names hold no colon, a policy and a tunnel share a key only if the
    type names are the same (and the ids rendered the same), and the type
    name and the rendered id can be read back from a key by cutting it at
    its first colon. *)
Theorem keys_identify_entities (a b : number) :
  (createPolicyKey a = createPolicyKey b <-> ToString a = ToString b)
  /\ (createNetworkTunnelKey a = createNetworkTunnelKey b
      <-> ToString a = ToString b)
  /\ (colon_free POLICY_type = true ->
      colon_free NETWORK_TUNNEL_type = true ->
      createPolicyKey a = createNetworkTunnelKey b ->
      POLICY_type = NETWORK_TUNNEL_type /\ ToString a = ToString b)
  /\ (colon_free POLICY_type = true ->
      forall type rendered,
        colon_free type = true ->
        createPolicyKey a = type ++ ":" ++ rendered ->
        type = POLICY_type /\ rendered = ToString a).
Proof.
  assert (Hkey : forall p x y,
            p ++ ":" ++ ToString x = p ++ ":" ++ ToString y
            <-> ToString x = ToString y).
  { intros p x y. split; [|by intros ->].
    intros Heq. apply append_cancel in Heq.
    by apply (append_cancel ":") in Heq. }
  split; [apply Hkey|]. split; [apply Hkey|]. split.
  - intros H1 H2 Heq. by apply (colon_split _ _ _ _ H1 H2 Heq).
  - intros H1 type rendered H2 Heq.
    destruct (colon_split _ _ _ _ H1 H2 Heq) as [-> ->]. done.
Qed.

End KeyFacts.

(** ** Concrete runs of the further properties *)

(** Three 429: the trace ends with the rejected request, the log line and
    the sleep. *)
Lemma requestWithRetry_outcome_witness :
  exists tr req err,
    trace (fst (requestWithRetry rate_limiting plain client opts fresh))
    = (tr ++ [EvRequest req (Rejected err);
              EvLog (LogRateLimit (sleepTime err));
              EvSleep (sleepTime err)])%list
    /\ err_status err = Some 429%Z.
Proof.
  apply (requestWithRetry_outcome rate_limiting plain client opts fresh
           (fst (requestWithRetry rate_limiting plain client opts fresh))
           None).
  vm_compute. reflexivity.
Defined.

(** A 429, then a 401: raised, the token kept. *)
Lemma auth_failure_after_rate_limit_raises_witness :
  snd (requestWithRetry stale_after_limit plain client opts fresh)
  = Throw (IntegrationProviderAuthenticationError (Some 401%Z)
             (Some "Unauthorized") (Some sites_page_1))
  /\ Authorization client
       (fst (requestWithRetry stale_after_limit plain client opts fresh))
     = "Bearer t1".
Proof.
  pose (st1 := fst (attempt stale_after_limit plain client opts fresh)).
  pose (st2 := fst (attempt stale_after_limit plain client opts
                      (after_rate_limit (too_many ∅) st1))).
  destruct (auth_failure_after_rate_limit_raises stale_after_limit plain
              client opts fresh st1 (too_many ∅) st2 "Request failed"
              (error_response 401 "Unauthorized" ∅ sites_page_1))
    as (Hrun & _ & Hslot & _).
  - vm_compute. reflexivity.
  - reflexivity.
  - vm_compute. reflexivity.
  - left. reflexivity.
  - rewrite Hrun. split; [reflexivity|].
    simpl. rewrite Hslot. vm_compute. reflexivity.
Defined.

(** The token acquired is returned again without a request. *)
Lemma getToken_caches_witness :
  getToken expired_token plain client
    (fst (getToken expired_token plain client fresh))
  = (fst (getToken expired_token plain client fresh), Ret "Bearer t1").
Proof.
  destruct (getToken_caches expired_token plain client fresh
              (fst (getToken expired_token plain client fresh))
              (Ret "Bearer t1"))
    as (_ & _ & Hagain & _); [vm_compute; reflexivity|].
  exact Hagain.
Defined.

(** After a request that refreshed the token, the content type is as the
    client was constructed with. *)
Lemma client_only_assigns_its_token_witness :
  heap_get
    (heap (fst (requestWithRetry expired_token plain client opts fresh)))
    (headers client) !! "Content-Type"
  = Some "application/json".
Proof.
  destruct (client_only_assigns_its_token expired_token plain client
              record_item fresh)
    as (_ & _ & _ & Hkept).
  - intros item st0. split; [reflexivity|]. by exists [EvCallback item].
  - rewrite Hkept. vm_compute. reflexivity.
Defined.

(** The iteratee throws on the third record of the first page. *)
Lemma iteratee_error_ends_iteration_witness :
  snd (requestIterator (paged_provider "t1" BArray [[1; 2; 13; 4]; [5]])
         plain 3 client sites superstitious fresh)
  = Throw unlucky
  /\ callbacks (trace (fst
       (requestIterator (paged_provider "t1" BArray [[1; 2; 13; 4]; [5]])
          plain 3 client sites superstitious fresh)))
     = [1; 2; 13].
Proof.
  destruct (iteratee_error_ends_iteration plain "t1" client sites
              (Nat.eqb 13) unlucky [[1; 2; 13; 4]; [5]] [1; 2] 13 [4] 2
              initial_vars fresh)
    as [Hflat _].
  - reflexivity.
  - repeat constructor.
  - reflexivity.
  - unfold requestIterator, superstitious. rewrite Hflat.
    split; [reflexivity|vm_compute; reflexivity].
Defined.

(** Three rounds against a provider of full pages: still going. *)
Lemma endless_full_pages_never_end_witness :
  snd (requestIterator (endless_provider "t1" (BArray (replicate 100 7)))
         plain 3 client sites record_item fresh)
  = OutOfFuel.
Proof.
  destruct (endless_full_pages_never_end plain "t1" client sites
              (replicate 100 7) 3 fresh)
    as [(st' & Hrun & _) _]; [reflexivity|].
  rewrite Hrun. reflexivity.
Defined.

(** The first client of a process has no token. *)
Lemma getOrCreateAPIClient_singleton_witness :
  Authorization (fst (getOrCreateAPIClient (config client) cold))
    (memory (snd (getOrCreateAPIClient (config client) cold)))
  = "".
Proof.
  destruct (getOrCreateAPIClient_singleton (config client) (config client)
              cold)
    as (_ & _ & _ & _ & Hnew).
  destruct (Hnew eq_refl) as (_ & _ & _ & Hslot & _). exact Hslot.
Defined.

(** A policy and a tunnel with the same id have different keys. *)
Lemma keys_identify_entities_witness :
  createPolicyKey "cisco_umbrella_policy" Z decimal 3%Z
  <> createNetworkTunnelKey "cisco_umbrella_tunnel" Z decimal 3%Z.
Proof.
  intros Heq.
  destruct (keys_identify_entities "cisco_umbrella_policy"
              "cisco_umbrella_tunnel" Z decimal 3%Z 3%Z)
    as (_ & _ & Hcross & _).
  destruct (Hcross eq_refl eq_refl Heq) as [Htypes _]. discriminate Htypes.
Defined.
